(** * The Pinoccio serial bootloader (firmware/bootloader/src/main.c)

    A shallow embedding of the boot code: the polled UART receive
    routines, the start-up sequence that saves the reset cause and
    switches the watchdog off, the receive state machine of the main
    loop and the page erase / fill / write block that follows it.

    C integers are [Z] (or [N] for the poll counter) with their
    wrap-around written out.  Loops whose trip count depends on the
    hardware or on the input take a [fuel] argument and return [None]
    when it runs out; the theorems say how much fuel is enough. *)

From Stdlib Require Import ZArith NArith List Bool Lia.
Import ListNotations.

Open Scope Z_scope.

(** ** Fixed-width integers *)

Definition uint8 (z : Z) : Z := z mod 256.
Definition uint16 (z : Z) : Z := z mod 65536.
Definition uint32 (z : Z) : Z := z mod 4294967296.

Arguments uint8 : simpl never.
Arguments uint16 : simpl never.
Arguments uint32 : simpl never.

(** ** Build-time constants

    [F_CPU], [BOOTSIZE] and the parser states are defined in main.c.
    [FLASHEND], [SPM_PAGESIZE] and [RAMPZ] come from the device header of
    avr-libc and [MESSAGE_START] from command.h; they are the fields of a
    [target]. *)

Definition F_CPU : N := 16000000%N.
Definition MAX_TIME_COUNT : N := N.shiftr F_CPU 1.

Arguments MAX_TIME_COUNT : simpl never.

Definition BOOTSIZE : Z := 4096.

Definition ST_START : Z := 0.
Definition ST_GET_SEQ_NUM : Z := 1.
Definition ST_MSG_SIZE_1 : Z := 2.
Definition ST_MSG_SIZE_2 : Z := 3.
Definition ST_GET_TOKEN : Z := 4.
Definition ST_GET_DATA : Z := 5.
Definition ST_GET_CHECK : Z := 6.
Definition ST_PROCESS : Z := 7.

Record target : Type := Target {
  FLASHEND : Z;
  SPM_PAGESIZE : Z;
  MESSAGE_START : Z;
  RAMPZ : bool
}.

(** The ATmega256RFR2 of the Pinoccio board: 256 KiB of flash in pages of
    256 bytes, an extended Z pointer, and the STK500v2 start marker. *)
Definition pinoccio : target :=
  {| FLASHEND := 0x3FFFF; SPM_PAGESIZE := 256; MESSAGE_START := 0x1B;
     RAMPZ := true |}.

(** [address_t] is [uint32_t] when RAMPZ exists and [uint16_t] otherwise. *)
Definition address_t (T : target) (z : Z) : Z :=
  if RAMPZ T then uint32 z else uint16 z.

(** The number of values of [address_t]. *)
Definition address_width (T : target) : Z :=
  if RAMPZ T then 4294967296 else 65536.

(** [APP_END] is the first byte of the boot section.  The constant
    expressions here and in [midpoint] are taken exactly. *)
Definition APP_END (T : target) : Z := FLASHEND T - 2 * BOOTSIZE + 1.

(** The initial value of [address] in [main]. *)
Definition midpoint (T : target) : Z :=
  address_t T (Z.quot (FLASHEND T + 1) 2).

(** ** The serial line

    [rx] lists the bytes that are still to arrive, each with the number of
    polls of the status register that find the receive-complete flag clear
    before the byte is there, counted from the previous read.  [tx] is
    what [sendchar] has sent, oldest first, and [polls] counts the reads
    of the status register made so far. *)

Record uart : Type := Uart {
  rx : list (N * Z);
  tx : list Z;
  polls : N
}.

(** [UART_STATUS_REG & (1 << UART_RECEIVE_COMPLETE)] *)
Definition RXC (u : uart) : bool :=
  match rx u with
  | (0%N, _) :: _ => true
  | _ => false
  end.

(** One read of the status register that finds the flag as [RXC] says. *)
Definition poll (u : uart) : uart :=
  {| rx := match rx u with
           | (d, b) :: r => if RXC u then rx u else (N.pred d, b) :: r
           | [] => []
           end;
     tx := tx u;
     polls := N.succ (polls u) |}.

(** Reading [UART_DATA_REG]: the eight bits of the byte that has arrived. *)
Definition UDR (u : uart) : Z * uart :=
  match rx u with
  | (_, b) :: r => (uint8 b, {| rx := r; tx := tx u; polls := polls u |})
  | [] => (0, u)
  end.

(** [sendchar]: the byte goes out; the wait for the transmit-complete flag
    is left to the hardware. *)
Definition sendchar (ch : Z) (u : uart) : uart :=
  {| rx := rx u; tx := tx u ++ [uint8 ch]; polls := polls u |}.

(** [Serial_Available] *)
Definition Serial_Available (u : uart) : bool * uart := (RXC u, poll u).

(** [recchar]: polls until a byte is there.  [None] when [fuel] polls did
    not see one. *)
Fixpoint recchar (fuel : nat) (u : uart) : option (Z * uart) :=
  match fuel with
  | O => None
  | S f => if RXC u then Some (UDR (poll u)) else recchar f (poll u)
  end.

(** The loop of [recchar_timeout], entered with [count] and the caller's
    [timedout]; it yields the byte, the flag and the line. *)
Fixpoint recchar_timeout_loop (fuel : nat) (count : N) (timedout : bool)
    (u : uart) : option (Z * bool * uart) :=
  match fuel with
  | O => None
  | S f =>
      if RXC u then
        let '(ch, u') := UDR (poll u) in Some (ch, timedout, u')
      else
        let count' := (N.succ count mod 4294967296)%N in
        if (MAX_TIME_COUNT <? count')%N then Some (0, true, poll u)
        else recchar_timeout_loop f count' timedout (poll u)
  end.

(** What the loop comes to when it is entered with [count]: the byte if it
    arrives before the counter passes [MAX_TIME_COUNT], the NUL character
    and the flag otherwise. *)
Definition recchar_timeout_from (count : N) (timedout : bool) (u : uart)
    : Z * bool * uart :=
  let left := (MAX_TIME_COUNT + 1 - count)%N in
  match rx u with
  | (d, b) :: r =>
      if (d <? left)%N then
        (uint8 b, timedout,
         {| rx := r; tx := tx u; polls := (polls u + d + 1)%N |})
      else
        (0, true,
         {| rx := ((d - left)%N, b) :: r; tx := tx u;
            polls := (polls u + left)%N |})
  | [] => (0, true, {| rx := []; tx := tx u; polls := (polls u + left)%N |})
  end.

(** [recchar_timeout(&timedout)], with [count] starting at zero. *)
Definition recchar_timeout (timedout : bool) (u : uart) : Z * bool * uart :=
  recchar_timeout_from 0 timedout u.

(** ** Reset cause and watchdog registers

    The registers [main] touches before its loop.  [MCUSR] holds the reset
    flags, which software can only clear.  In [WDTCSR] the enable bit WDE
    and the prescaler bits can be changed only in the timed sequence: WDCE
    and WDE are written as ones in one write, and the very next write sets
    them; WDE also stays set as long as the watchdog reset flag WDRF in
    [MCUSR] is set.  [wdt_unlocked] says that the timed sequence is open,
    [wdt_counter] is the watchdog's counter and [SREG_I] the global
    interrupt flag. *)

Record mcu : Type := Mcu {
  MCUSR : Z;
  GPIOR0 : Z;
  WDTCSR : Z;
  wdt_unlocked : bool;
  wdt_counter : N;
  SREG_I : bool
}.

Definition _BV (bit : Z) : Z := Z.shiftl 1 bit.

Definition WDRF : Z := 3.
Definition WDE : Z := 3.
Definition WDCE : Z := 4.
Definition WDIE : Z := 6.

(** WDE and WDP3..WDP0, the bits the timed sequence protects. *)
Definition wdt_protected : Z := 0x2F.

Definition write_GPIOR0 (v : Z) (r : mcu) : mcu :=
  {| MCUSR := MCUSR r; GPIOR0 := uint8 v; WDTCSR := WDTCSR r;
     wdt_unlocked := false; wdt_counter := wdt_counter r;
     SREG_I := SREG_I r |}.

Definition write_MCUSR (v : Z) (r : mcu) : mcu :=
  {| MCUSR := Z.land (MCUSR r) (uint8 v); GPIOR0 := GPIOR0 r;
     WDTCSR := WDTCSR r; wdt_unlocked := false;
     wdt_counter := wdt_counter r; SREG_I := SREG_I r |}.

Definition write_WDTCSR (v : Z) (r : mcu) : mcu :=
  let v := uint8 v in
  let old := WDTCSR r in
  let wdie := Z.land v (_BV WDIE) in
  if Z.testbit v WDCE && Z.testbit v WDE then
    {| MCUSR := MCUSR r; GPIOR0 := GPIOR0 r;
       WDTCSR := Z.lor (Z.lor (Z.land old wdt_protected) (_BV WDE)) wdie;
       wdt_unlocked := true; wdt_counter := wdt_counter r;
       SREG_I := SREG_I r |}
  else if wdt_unlocked r then
    {| MCUSR := MCUSR r; GPIOR0 := GPIOR0 r;
       WDTCSR := Z.lor (Z.lor (Z.land v wdt_protected)
                          (if Z.testbit (MCUSR r) WDRF then _BV WDE else 0))
                       wdie;
       wdt_unlocked := false; wdt_counter := wdt_counter r;
       SREG_I := SREG_I r |}
  else
    {| MCUSR := MCUSR r; GPIOR0 := GPIOR0 r;
       WDTCSR := Z.lor (Z.lor (Z.land old wdt_protected)
                          (Z.land v (_BV WDE)))
                       wdie;
       wdt_unlocked := false; wdt_counter := wdt_counter r;
       SREG_I := SREG_I r |}.

Definition cli (r : mcu) : mcu :=
  {| MCUSR := MCUSR r; GPIOR0 := GPIOR0 r; WDTCSR := WDTCSR r;
     wdt_unlocked := false; wdt_counter := wdt_counter r; SREG_I := false |}.

Definition sei (r : mcu) : mcu :=
  {| MCUSR := MCUSR r; GPIOR0 := GPIOR0 r; WDTCSR := WDTCSR r;
     wdt_unlocked := false; wdt_counter := wdt_counter r; SREG_I := true |}.

Definition wdr (r : mcu) : mcu :=
  {| MCUSR := MCUSR r; GPIOR0 := GPIOR0 r; WDTCSR := WDTCSR r;
     wdt_unlocked := false; wdt_counter := 0%N; SREG_I := SREG_I r |}.

(** The watchdog runs when it is enabled for resets or for interrupts. *)
Definition watchdog_running (r : mcu) : bool :=
  Z.testbit (WDTCSR r) WDE || Z.testbit (WDTCSR r) WDIE.

(** [GPIOR0 = MCUSR;] *)
Definition save_reset_cause (r : mcu) : mcu := write_GPIOR0 (MCUSR r) r.

(** The lines under "make sure watchdog is off!". *)
Definition watchdog_off (r : mcu) : mcu :=
  let r := cli r in
  let r := wdr r in
  let r := write_MCUSR 0 r in
  let r := write_WDTCSR (Z.lor (WDTCSR r) (Z.lor (_BV WDCE) (_BV WDE))) r in
  let r := write_WDTCSR 0 r in
  sei r.

(** What [main] does to these registers before it sets the UART up. *)
Definition startup (r : mcu) : mcu := watchdog_off (save_reset_cause r).

(** ** Self-programming

    The firmware drives the flash through the macros of avr/boot.h; the
    model records the calls in order. *)

Inductive spm_op : Type :=
| boot_page_erase (a : Z)
| boot_spm_busy_wait
| boot_page_fill (a : Z) (data : Z)
| boot_page_write (a : Z)
| boot_rww_enable.

(** ** The state of [main]

    The locals of [main] ([isLeave] and [isTimeout] only ever hold 0 or 1),
    the serial line, the flash calls made so far (oldest first), the
    registers above, and [control]: [Some a] once the firmware has given
    the processor to the code at [a]. *)

Record locals : Type := Locals {
  address : Z;
  msgParseState : Z;
  ii : Z;
  msgLength : Z;
  c : Z;
  isLeave : bool;
  isTimeout : bool
}.

Record machine : Type := Machine {
  vars : locals;
  serial : uart;
  spm : list spm_op;
  regs : mcu;
  control : option Z
}.

Definition set_address (v : Z) (l : locals) : locals :=
  {| address := v; msgParseState := msgParseState l; ii := ii l;
     msgLength := msgLength l; c := c l; isLeave := isLeave l;
     isTimeout := isTimeout l |}.

Definition set_msgParseState (v : Z) (l : locals) : locals :=
  {| address := address l; msgParseState := v; ii := ii l;
     msgLength := msgLength l; c := c l; isLeave := isLeave l;
     isTimeout := isTimeout l |}.

Definition set_ii (v : Z) (l : locals) : locals :=
  {| address := address l; msgParseState := msgParseState l; ii := v;
     msgLength := msgLength l; c := c l; isLeave := isLeave l;
     isTimeout := isTimeout l |}.

Definition set_msgLength (v : Z) (l : locals) : locals :=
  {| address := address l; msgParseState := msgParseState l; ii := ii l;
     msgLength := v; c := c l; isLeave := isLeave l;
     isTimeout := isTimeout l |}.

Definition set_c (v : Z) (l : locals) : locals :=
  {| address := address l; msgParseState := msgParseState l; ii := ii l;
     msgLength := msgLength l; c := v; isLeave := isLeave l;
     isTimeout := isTimeout l |}.

Definition set_isTimeout (v : bool) (l : locals) : locals :=
  {| address := address l; msgParseState := msgParseState l; ii := ii l;
     msgLength := msgLength l; c := c l; isLeave := isLeave l;
     isTimeout := v |}.

(** The function pointer [app_start], which holds 0x0000, and a call
    through a function pointer. *)
Definition app_start : Z := 0x0000.

Definition call (a : Z) (m : machine) : machine :=
  {| vars := vars m; serial := serial m; spm := spm m; regs := regs m;
     control := Some a |}.

(** *** Relating two states of the machine *)

(** A read either takes the next byte, which came in time, or sets the
    time-out flag and takes nothing. *)
Inductive read_outcome (m m' : machine) : Prop :=
| read_byte d b r
    (Hrx : rx (serial m) = (d, b) :: r)
    (Hd : (d <= MAX_TIME_COUNT)%N)
    (Hrx' : rx (serial m') = r)
    (Hc : c (vars m') = uint8 b)
    (Ht : isTimeout (vars m') = isTimeout (vars m))
    (Hp : polls (serial m') = (polls (serial m) + d + 1)%N)
| read_timeout
    (Hlen : length (rx (serial m')) = length (rx (serial m)))
    (Hc : c (vars m') = 0)
    (Ht : isTimeout (vars m') = true)
    (Hp : polls (serial m') = (polls (serial m) + MAX_TIME_COUNT + 1)%N).

(** What a step leaves alone: everything but [c], the flag, the parser's
    own variables and the receive side of the line. *)
Definition same_outside (m m' : machine) : Prop :=
  address (vars m') = address (vars m)
  /\ isLeave (vars m') = isLeave (vars m)
  /\ tx (serial m') = tx (serial m)
  /\ spm m' = spm m
  /\ regs m' = regs m
  /\ control m' = control m.

(** The polls made so far plus a full window for every byte still to
    come: a read that takes a byte does not raise it. *)
Definition poll_budget (m : machine) : N :=
  (polls (serial m)
   + (MAX_TIME_COUNT + 1) * N.of_nat (length (rx (serial m))))%N.

(** The outer [while] has nothing more to do. *)
Definition stopped (m : machine) : bool :=
  isLeave (vars m) || isTimeout (vars m).

Section Firmware.

Variable T : target.

(** *** The receive state machine *)

(** The [switch (msgParseState)] of the inner loop. *)
Definition parse_switch (l : locals) : locals :=
  let s := msgParseState l in
  if s =? ST_START then
    if c l =? MESSAGE_START T then set_msgParseState ST_MSG_SIZE_1 l else l
  else if s =? ST_MSG_SIZE_1 then
    set_msgParseState ST_MSG_SIZE_2
      (set_msgLength (uint16 (Z.shiftl (c l) 8)) l)
  else if s =? ST_MSG_SIZE_2 then
    set_ii 0
      (set_msgParseState ST_GET_DATA
         (set_msgLength (uint16 (Z.lor (msgLength l) (c l))) l))
  else if s =? ST_GET_DATA then
    if ii l =? msgLength l then set_msgParseState ST_PROCESS l else l
  else l.

(** [c = recchar_timeout(&isTimeout);] *)
Definition read_c (m : machine) : machine :=
  let '(ch, t, u) := recchar_timeout (isTimeout (vars m)) (serial m) in
  {| vars := set_isTimeout t (set_c ch (vars m)); serial := u;
     spm := spm m; regs := regs m; control := control m |}.

Definition with_vars (l : locals) (m : machine) : machine :=
  {| vars := l; serial := serial m; spm := spm m; regs := regs m;
     control := control m |}.

(** One round of the inner [while]. *)
Definition collect_body (m : machine) : machine :=
  let m := read_c m in with_vars (parse_switch (vars m)) m.

Definition collecting (l : locals) : bool :=
  negb (msgParseState l =? ST_PROCESS) && negb (isLeave l)
  && negb (isTimeout l).

(** [while ((msgParseState != ST_PROCESS) && (!isLeave) && (!isTimeout))] *)
Fixpoint collect (fuel : nat) (m : machine) : option machine :=
  if collecting (vars m) then
    match fuel with
    | O => None
    | S f => collect f (collect_body m)
    end
  else Some m.

(** *** The page block *)

(** The [do ... while (size)] that fills the page buffer. *)
Fixpoint fill_loop (fuel : nat) (tempAddress size : Z) (log : list spm_op)
    : option (list spm_op) :=
  match fuel with
  | O => None
  | S f =>
      let data := 0xcfff in
      let log := log ++ [boot_page_fill tempAddress data] in
      let tempAddress := address_t T (tempAddress + 2) in
      let size := uint16 (size - 2) in
      if size =? 0 then Some log else fill_loop f tempAddress size log
  end.

(** A sixteen-bit [size] that reaches zero does so within 32768 rounds. *)
Definition fill_fuel : nat := Z.to_nat 32768.

(** The advance of [address] after the page has been written; both sides
    of the comparison are taken in the width of [address_t]. *)
Definition next_address (a : Z) : Z :=
  let a := address_t T (a + SPM_PAGESIZE T) in
  if address_t T (a + SPM_PAGESIZE T) >? address_t T (APP_END T + 1)
  then midpoint T else a.

(** The block after the inner loop. *)
Definition page_operation (m : machine) : option machine :=
  let l := vars m in
  let size := uint16 (SPM_PAGESIZE T) in
  let log := spm m ++ [boot_page_erase (address l); boot_spm_busy_wait] in
  match fill_loop fill_fuel (address l) size log with
  | None => None
  | Some log =>
      let log :=
        log ++ [boot_page_write (address l); boot_spm_busy_wait;
                boot_rww_enable] in
      let l := set_msgLength 2 l in
      let l := set_address (next_address (address l)) l in
      Some {| vars := l; serial := serial m; spm := log; regs := regs m;
              control := control m |}
  end.

(** *** The loops of [main] *)

(** One round of [while ((!isLeave) && (!isTimeout))]. *)
Definition iteration (fuel : nat) (m : machine) : option machine :=
  let m := with_vars (set_msgParseState ST_START (vars m)) m in
  match collect fuel m with
  | None => None
  | Some m => page_operation m
  end.

Fixpoint main_loop (fuel : nat) (m : machine) : option machine :=
  if negb (isLeave (vars m)) && negb (isTimeout (vars m)) then
    match fuel with
    | O => None
    | S f =>
        match iteration f m with
        | None => None
        | Some m => main_loop f m
        end
    end
  else Some m.

(** [n] rounds of the enclosing [for(;;)]. *)
Fixpoint forever (n : nat) (fuel : nat) (m : machine) : option machine :=
  match n with
  | O => Some m
  | S k =>
      match main_loop fuel m with
      | None => None
      | Some m => forever k fuel m
      end
  end.

(** The locals as [main] declares them.  [msgParseState] and [c] have no
    initialiser and are written before they are read; they start as 0
    here. *)
Definition initial_locals : locals :=
  {| address := midpoint T; msgParseState := 0; ii := 0; msgLength := 0;
     c := 0; isLeave := false; isTimeout := false |}.

(** The machine when the [for(;;)] is entered.  The stack pointer and
    UART set-up lines of [main] touch nothing that is modelled here. *)
Definition boot (u : uart) (r : mcu) : machine :=
  {| vars := initial_locals; serial := u; spm := []; regs := startup r;
     control := None |}.

(** [main], followed through [n] rounds of its [for(;;)]. *)
Definition main (n fuel : nat) (u : uart) (r : mcu) : option machine :=
  forever n fuel (boot u r).

(** The calls one page block makes for the page at [a]. *)
Fixpoint fills (n : nat) (a : Z) : list spm_op :=
  match n with
  | O => []
  | S k => boot_page_fill a 0xcfff :: fills k (address_t T (a + 2))
  end.

Definition page_block (a : Z) : list spm_op :=
  [boot_page_erase a; boot_spm_busy_wait]
  ++ fills (Z.to_nat (SPM_PAGESIZE T / 2)) a
  ++ [boot_page_write a; boot_spm_busy_wait; boot_rww_enable].

(** The values [address] takes at the head of [n] successive rounds that
    start at [a]. *)
Fixpoint cursors (n : nat) (a : Z) : list Z :=
  match n with
  | O => []
  | S k => a :: cursors k (next_address a)
  end.

(** An [address] from which a whole page lies in the upper half of the
    application area. *)
Definition cursor_ok (a : Z) : Prop :=
  midpoint T <= a /\ a + SPM_PAGESIZE T <= APP_END T + 1
  /\ a mod SPM_PAGESIZE T = 0.

(** *** What the build must provide *)

(** The page size is a positive even sixteen-bit number, so that the fill
    loop's [size] counts down to zero. *)
Definition page_ok : Prop :=
  0 < SPM_PAGESIZE T < 65536 /\ SPM_PAGESIZE T mod 2 = 0.

(** [FLASHEND + 1] does not overflow the type C gives the constant ([long]
    on the devices with RAMPZ, [int] on the others), so that the constant
    expressions have the values written here; the upper half of the
    application area is made of whole pages and holds at least one; and
    addresses up to a page past the start of the boot section fit
    [address_t]. *)
Definition layout_ok : Prop :=
  0 <= FLASHEND T < (if RAMPZ T then 2147483647 else 32767)
  /\ Z.quot (FLASHEND T + 1) 2 mod SPM_PAGESIZE T = 0
  /\ APP_END T mod SPM_PAGESIZE T = 0
  /\ Z.quot (FLASHEND T + 1) 2 + SPM_PAGESIZE T <= APP_END T
  /\ APP_END T + 2 * SPM_PAGESIZE T < address_width T.

(** The start marker is a byte. *)
Definition marker_ok : Prop := 0 <= MESSAGE_START T < 256.

End Firmware.

(** A line on which the bytes [bs] arrive one after the other, each
    already there when it is asked for, and nothing after them. *)
Definition line (bs : list Z) : uart :=
  {| rx := map (fun b => (0%N, b)) bs; tx := []; polls := 0 |}.

(** Registers after a watchdog reset that left the watchdog enabled. *)
Definition after_watchdog_reset : mcu :=
  {| MCUSR := 0x08; GPIOR0 := 0; WDTCSR := 0x08; wdt_unlocked := false;
     wdt_counter := 0; SREG_I := false |}.

(** ** Reading the flash log *)



(** The last byte of flash a call is about: the end of the page for an
    erase or a write, the second byte of the word for a fill. *)
Definition last_byte (T : target) (op : spm_op) : option Z :=
  match op with
  | boot_page_erase a | boot_page_write a =>
      Some (a - a mod SPM_PAGESIZE T + SPM_PAGESIZE T - 1)
  | boot_page_fill a _ => Some (a + 1)
  | _ => None
  end.

(** The call stays below the boot section, which begins at [APP_END]. *)
Definition below_boot (T : target) (op : spm_op) : Prop :=
  match last_byte T op with
  | Some z => z < APP_END T
  | None => True
  end.

(** ** The specification's wording, for comparison *)

(** The frame of the specification: start marker, sequence number, two
    length bytes, token, as many payload bytes as the length says, and a
    last byte that is the exclusive-or of all the bytes before it. *)
Definition xor_all (bs : list Z) : Z := fold_left Z.lxor bs 0.

Definition spec_frame_ok (T : target) (bs : list Z) : bool :=
  match bs with
  | start :: _ :: hi :: lo :: _ :: rest =>
      (start =? MESSAGE_START T)
      && (Z.of_nat (length rest) =? 256 * hi + lo + 1)
      && (last rest 0 =? xor_all (removelast bs))
  | _ => false
  end.

(** The cursor after a page write as the specification words it: one page
    on, or the midpoint when that sum would exceed the boundary. *)
Definition spec_next_cursor (T : target) (prev : Z) : Z :=
  let sum := prev + SPM_PAGESIZE T in
  if sum >? APP_END T then midpoint T else sum.

(** [main]'s machine with [address] set to [a], about to run a round. *)
Definition at_address (T : target) (a : Z) (u : uart) (r : mcu) : machine :=
  with_vars (set_address a (initial_locals T)) (boot T u r).

(** ** Describing a line and what the firmware makes of it *)

(** Every byte of the line is there within the time-out window of the
    read that takes it. *)
Definition in_time (l : list (N * Z)) : Prop :=
  Forall (fun p => (fst p <= MAX_TIME_COUNT)%N) l.

(** What the inner loop accepts: bytes up to the first start marker are
    passed over, the two bytes after it must both be zero, and one more
    byte must follow.  [Some rest] is the line behind that byte. *)
Fixpoint frame_split (T : target) (l : list (N * Z))
    : option (list (N * Z)) :=
  match l with
  | [] => None
  | (_, b) :: r =>
      if uint8 b =? MESSAGE_START T then
        match r with
        | (_, hi) :: (_, lo) :: _ :: rest =>
            if (uint8 hi =? 0) && (uint8 lo =? 0) then Some rest else None
        | _ => None
        end
      else frame_split T r
  end.

(** How many times in a row [frame_split] succeeds, tried [fuel] times. *)
Fixpoint count_frames (fuel : nat) (T : target) (l : list (N * Z)) : nat :=
  match fuel with
  | O => O
  | S f =>
      match frame_split T l with
      | Some rest => S (count_frames f T rest)
      | None => O
      end
  end.

Definition frames (T : target) (l : list (N * Z)) : nat :=
  count_frames (length l) T l.

(** The number of pages between the midpoint and the boot section. *)
Definition page_count (T : target) : Z :=
  (APP_END T - midpoint T) / SPM_PAGESIZE T.

(** The first byte of flash a call is about. *)
Definition first_byte (T : target) (op : spm_op) : option Z :=
  match op with
  | boot_page_erase a | boot_page_write a => Some (a - a mod SPM_PAGESIZE T)
  | boot_page_fill a _ => Some a
  | _ => None
  end.

(** The call stays in the upper half of the flash. *)
Definition above_midpoint (T : target) (op : spm_op) : Prop :=
  match first_byte T op with
  | Some z => midpoint T <= z
  | None => True
  end.

(** The states the switch has a case for, and the one that ends the
    inner loop. *)
Definition parser_state (s : Z) : Prop :=
  s = ST_START \/ s = ST_MSG_SIZE_1 \/ s = ST_MSG_SIZE_2
  \/ s = ST_GET_DATA \/ s = ST_PROCESS.

(** Unfolds the assignments to the locals of [main]. *)
Ltac norm_locals :=
  unfold set_msgParseState, set_msgLength, set_ii, set_c, set_isTimeout,
    set_address;
  cbn [address msgParseState ii msgLength c isLeave isTimeout rx tx polls].

(** ** Polling lemmas *)

Lemma MAX_TIME_COUNT_val : MAX_TIME_COUNT = 8000000%N.
Proof. reflexivity. Qed.

Lemma MAX_TIME_COUNT_small : (MAX_TIME_COUNT < 4294967295)%N.
Proof. rewrite MAX_TIME_COUNT_val. lia. Qed.

Lemma recchar_timeout_loop_from :
  forall fuel count timedout u,
    (count <= MAX_TIME_COUNT)%N ->
    (MAX_TIME_COUNT + 1 - count < N.of_nat fuel)%N ->
    recchar_timeout_loop fuel count timedout u
    = Some (recchar_timeout_from count timedout u).
Proof.
  pose proof MAX_TIME_COUNT_small as HM.
  induction fuel as [|f IH]; intros count timedout [r t p] Hc Hf; [lia|].
  cbn [recchar_timeout_loop].
  assert (Hs : (N.succ count mod 4294967296 = N.succ count)%N)
    by (apply N.mod_small; lia).
  rewrite Hs.
  destruct r as [|[d b] r].
  - unfold RXC at 1; cbn [rx].
    destruct (N.ltb_spec MAX_TIME_COUNT (N.succ count)) as [Hlt|Hge].
    + unfold recchar_timeout_from, poll, RXC; cbn [rx tx polls].
      do 3 f_equal. lia.
    + rewrite IH by (unfold poll; lia).
      unfold recchar_timeout_from, poll, RXC; cbn [rx tx polls].
      do 3 f_equal. lia.
  - destruct d as [|d].
    + unfold RXC at 1; cbn [rx].
      unfold recchar_timeout_from, UDR, poll, RXC; cbn [rx tx polls].
      destruct (N.ltb_spec 0 (MAX_TIME_COUNT + 1 - count)); [|lia].
      do 3 f_equal. lia.
    + unfold RXC at 1; cbn [rx].
      destruct (N.ltb_spec MAX_TIME_COUNT (N.succ count)) as [Hlt|Hge].
      * unfold recchar_timeout_from, poll, RXC; cbn [rx tx polls].
        destruct (N.ltb_spec (N.pos d) (MAX_TIME_COUNT + 1 - count)); [lia|].
        do 2 f_equal. f_equal; [|lia]. do 2 f_equal. lia.
      * rewrite IH by (unfold poll; lia).
        unfold recchar_timeout_from, poll, RXC; cbn [rx tx polls].
        destruct (N.ltb_spec (N.pred (N.pos d))
                    (MAX_TIME_COUNT + 1 - N.succ count));
          destruct (N.ltb_spec (N.pos d) (MAX_TIME_COUNT + 1 - count));
          try lia.
        -- do 3 f_equal. lia.
        -- do 2 f_equal. f_equal; [|lia]. do 2 f_equal. lia.
Qed.

(** [recchar_timeout] always returns: its loop needs at most
    [MAX_TIME_COUNT + 2] rounds, whatever the line does. *)
Lemma recchar_timeout_loop_returns :
  forall fuel timedout u,
    (MAX_TIME_COUNT + 1 < N.of_nat fuel)%N ->
    recchar_timeout_loop fuel 0 timedout u = Some (recchar_timeout timedout u).
Proof.
  intros fuel timedout u Hf. unfold recchar_timeout.
  apply recchar_timeout_loop_from; lia.
Qed.

(** [recchar] has no such bound: on a silent line no fuel is enough. *)
Lemma recchar_silent :
  forall fuel t p, recchar fuel {| rx := []; tx := t; polls := p |} = None.
Proof.
  induction fuel as [|f IH]; intros t p; [reflexivity|].
  cbn [recchar]. unfold RXC, poll; cbn [rx tx polls]. apply IH.
Qed.

(** ** One read of the main loop *)

Section FirmwareFacts.

Variable T : target.

Lemma same_outside_refl : forall m, same_outside m m.
Proof. intros m; repeat split. Qed.

Lemma same_outside_trans :
  forall m1 m2 m3, same_outside m1 m2 -> same_outside m2 m3 ->
                   same_outside m1 m3.
Proof.
  unfold same_outside. intros m1 m2 m3 H12 H23.
  decompose [and] H12. decompose [and] H23. repeat split; congruence.
Qed.

Lemma read_c_outcome : forall m, read_outcome m (read_c m).
Proof.
  intros [l [r t p] log rg ctl].
  unfold read_c, recchar_timeout, recchar_timeout_from; cbn [serial vars rx tx polls].
  destruct r as [|[d b] r].
  - apply read_timeout; cbn; try reflexivity. lia.
  - destruct (N.ltb_spec d (MAX_TIME_COUNT + 1 - 0)) as [Hlt|Hge].
    + eapply read_byte with (d := d) (b := b) (r := r); cbn; try reflexivity.
      lia.
    + apply read_timeout; cbn; try reflexivity. lia.
Qed.

Lemma read_c_same : forall m, same_outside m (read_c m).
Proof.
  intros [l [r t p] log rg ctl].
  unfold read_c, recchar_timeout, recchar_timeout_from; cbn [serial vars rx tx polls].
  destruct r as [|[d b] r]; [repeat split|].
  destruct (d <? MAX_TIME_COUNT + 1 - 0)%N; repeat split.
Qed.

Lemma read_c_parser :
  forall m, msgParseState (vars (read_c m)) = msgParseState (vars m)
            /\ ii (vars (read_c m)) = ii (vars m)
            /\ msgLength (vars (read_c m)) = msgLength (vars m).
Proof.
  intros [l [r t p] log rg ctl].
  unfold read_c, recchar_timeout, recchar_timeout_from; cbn [serial vars rx tx polls].
  destruct r as [|[d b] r]; [repeat split|].
  destruct (d <? MAX_TIME_COUNT + 1 - 0)%N; repeat split.
Qed.

(** The switch touches only the parser's own variables. *)
Lemma parse_switch_keeps :
  forall l, address (parse_switch T l) = address l
            /\ isLeave (parse_switch T l) = isLeave l
            /\ isTimeout (parse_switch T l) = isTimeout l
            /\ c (parse_switch T l) = c l.
Proof.
  intros l. unfold parse_switch.
  repeat match goal with
         | |- context [if ?b then _ else _] => destruct b
         end; repeat split.
Qed.

Lemma collect_body_outcome : forall m, read_outcome m (collect_body T m).
Proof.
  intros m. unfold collect_body.
  destruct (parse_switch_keeps (vars (read_c m))) as (_ & _ & Ht & Hc).
  destruct (read_c_outcome m) as [d b r Hrx Hd Hrx' Hc' Ht' Hp|Hlen Hc' Ht' Hp].
  - eapply read_byte with (d := d) (b := b) (r := r); cbn; try assumption;
      congruence.
  - apply read_timeout; cbn; try assumption; congruence.
Qed.

Lemma collect_body_same : forall m, same_outside m (collect_body T m).
Proof.
  intros m. unfold collect_body.
  destruct (parse_switch_keeps (vars (read_c m))) as (Ha & Hl & _ & _).
  destruct (read_c_same m) as (Ha' & Hl' & Htx & Hs & Hr & Hctl).
  repeat split; cbn; congruence.
Qed.

(** *** The inner loop *)

Lemma collect_done :
  forall fuel m, collecting (vars m) = false -> collect T fuel m = Some m.
Proof. intros [|f] m H; cbn [collect]; rewrite H; reflexivity. Qed.

Lemma collecting_timeout :
  forall l, isTimeout l = true -> collecting l = false.
Proof.
  intros l H. unfold collecting. rewrite H. cbn. apply andb_false_r.
Qed.

(** With more fuel than bytes on the line the inner loop returns, with its
    condition false; it has taken a byte or timed out if it ran at all. *)
Lemma collect_returns :
  forall fuel m,
    (length (rx (serial m)) < fuel)%nat ->
    exists m',
      collect T fuel m = Some m'
      /\ collecting (vars m') = false
      /\ same_outside m m'
      /\ (length (rx (serial m')) <= length (rx (serial m)))%nat
      /\ (poll_budget m' <= poll_budget m
            + (if isTimeout (vars m') then MAX_TIME_COUNT + 1 else 0))%N
      /\ (collecting (vars m) = true ->
          isTimeout (vars m') = true
          \/ (length (rx (serial m')) < length (rx (serial m)))%nat).
Proof.
  induction fuel as [|f IH]; intros m Hf; [lia|].
  cbn [collect]. destruct (collecting (vars m)) eqn:Hcol.
  2:{ exists m. split; [reflexivity|]. split; [exact Hcol|].
      split; [apply same_outside_refl|]. split; [lia|].
      split; [|discriminate]. destruct (isTimeout (vars m)); lia. }
  pose proof (collect_body_same m) as Hsame.
  destruct (collect_body_outcome m)
    as [d b r Hrx Hd Hrx' Hc Ht Hp|Hlen Hc Ht Hp].
  - destruct (IH (collect_body T m)) as (m' & Hrun & Hend & Hs & Hle & Hb & _).
    { rewrite Hrx'. rewrite Hrx in Hf. cbn [length] in Hf. lia. }
    exists m'. split; [exact Hrun|]. split; [exact Hend|].
    split; [eapply same_outside_trans; eassumption|].
    rewrite Hrx' in Hle. rewrite Hrx. cbn [length].
    split; [lia|]. split; [|intros _; right; lia].
    unfold poll_budget in *. rewrite Hrx' in Hb. rewrite Hp in Hb.
    rewrite Hrx. cbn [length].
    destruct (isTimeout (vars m')); lia.
  - exists (collect_body T m).
    split; [apply collect_done, collecting_timeout, Ht|].
    split; [apply collecting_timeout, Ht|].
    split; [exact Hsame|]. split; [lia|]. split; [|intros _; left; exact Ht].
    unfold poll_budget. rewrite Ht, Hlen, Hp. lia.
Qed.

(** More fuel changes nothing once the loop has returned. *)
Lemma collect_fuel :
  forall fuel m m', collect T fuel m = Some m' ->
                    forall k, collect T (fuel + k) m = Some m'.
Proof.
  induction fuel as [|f IH]; intros m m' H k.
  - cbn [collect] in H. destruct (collecting (vars m)) eqn:Hc; [discriminate|].
    injection H as <-. apply collect_done, Hc.
  - cbn [collect Nat.add] in *. destruct (collecting (vars m)); [|exact H].
    apply IH, H.
Qed.

(** *** The page block *)

Lemma fill_loop_fills :
  forall n fuel a log,
    (n < fuel)%nat ->
    2 * (Z.of_nat n + 1) < 65536 ->
    fill_loop T fuel a (2 * (Z.of_nat n + 1)) log
    = Some (log ++ fills T (S n) a).
Proof.
  induction n as [|n IH]; intros fuel a log Hf Hs;
    (destruct fuel as [|f]; [lia|]); cbn [fill_loop fills].
  - replace (uint16 (2 * (Z.of_nat 0 + 1) - 2)) with 0 by reflexivity.
    reflexivity.
  - replace (uint16 (2 * (Z.of_nat (S n) + 1) - 2))
      with (2 * (Z.of_nat n + 1))
      by (unfold uint16; rewrite Z.mod_small; lia).
    destruct (Z.eqb_spec (2 * (Z.of_nat n + 1)) 0) as [E|_]; [lia|].
    rewrite IH by lia. rewrite <- app_assoc. reflexivity.
Qed.

Lemma length_fills : forall j x, length (fills T j x) = j.
Proof.
  induction j as [|j IHj]; intros x; [reflexivity|].
  cbn [fills length]. rewrite IHj. reflexivity.
Qed.

Lemma page_operation_runs :
  forall m,
    page_ok T ->
    page_operation T m
    = Some {| vars := set_address (next_address T (address (vars m)))
                        (set_msgLength 2 (vars m));
              serial := serial m;
              spm := spm m ++ page_block T (address (vars m));
              regs := regs m;
              control := control m |}.
Proof.
  intros m [[Hlo Hhi] Heven]. unfold page_operation, page_block.
  set (P := SPM_PAGESIZE T) in *.
  assert (HP : P = 2 * (Z.of_nat (Z.to_nat (P / 2) - 1) + 1)).
  { pose proof (Z.div_mod P 2 ltac:(lia)) as Hdm. rewrite Heven in Hdm.
    assert (1 <= P / 2) by lia. lia. }
  assert (Hn : Z.to_nat (P / 2) = S (Z.to_nat (P / 2) - 1)).
  { pose proof (Z.div_mod P 2 ltac:(lia)) as Hdm. rewrite Heven in Hdm.
    assert (1 <= P / 2) by lia. lia. }
  replace (uint16 P) with P by (unfold uint16; rewrite Z.mod_small; lia).
  rewrite HP at 1. rewrite fill_loop_fills.
  - rewrite <- Hn. rewrite <- !app_assoc. reflexivity.
  - unfold fill_fuel. lia.
  - lia.
Qed.

(** *** The outer loops *)

Lemma main_loop_stopped :
  forall fuel m, stopped m = true -> main_loop T fuel m = Some m.
Proof.
  intros [|f] m H; cbn [main_loop]; unfold stopped in H;
    rewrite <- negb_orb, H; reflexivity.
Qed.

Lemma forever_stopped :
  forall n fuel m, stopped m = true -> forever T n fuel m = Some m.
Proof.
  induction n as [|n IH]; intros fuel m H; cbn [forever]; [reflexivity|].
  rewrite main_loop_stopped by exact H. apply IH, H.
Qed.

(** A round returns from any state, stopped or not. *)
Lemma iteration_returns :
  forall fuel m,
    page_ok T ->
    (length (rx (serial m)) < fuel)%nat ->
    exists m', iteration T fuel m = Some m'.
Proof.
  intros fuel m Hpage Hf. unfold iteration.
  destruct (collect_returns fuel
              (with_vars (set_msgParseState ST_START (vars m)) m) Hf)
    as (mc & Hrun & _).
  rewrite Hrun, (page_operation_runs mc Hpage). eexists. reflexivity.
Qed.

(** One round: the inner loop returns and the page block runs at the
    address the round started with. *)
Lemma iteration_runs :
  forall fuel m,
    page_ok T ->
    (length (rx (serial m)) < fuel)%nat ->
    stopped m = false ->
    exists m',
      iteration T fuel m = Some m'
      /\ spm m' = spm m ++ page_block T (address (vars m))
      /\ address (vars m') = next_address T (address (vars m))
      /\ isLeave (vars m') = false
      /\ tx (serial m') = tx (serial m)
      /\ regs m' = regs m
      /\ control m' = control m
      /\ (poll_budget m' <= poll_budget m
            + (if isTimeout (vars m') then MAX_TIME_COUNT + 1 else 0))%N
      /\ (isTimeout (vars m') = true
          \/ (length (rx (serial m')) < length (rx (serial m)))%nat).
Proof.
  intros fuel m Hpage Hf Hstop. unfold iteration.
  set (m0 := with_vars (set_msgParseState ST_START (vars m)) m).
  apply orb_false_elim in Hstop as [Hleave Htime].
  assert (Hcol : collecting (vars m0) = true).
  { unfold collecting, m0; cbn. rewrite Hleave, Htime. reflexivity. }
  destruct (collect_returns fuel m0 Hf)
    as (mc & Hrun & _ & Hsame & _ & Hb & Hprog).
  destruct Hsame as (Ha & Hl & Htx & Hs & Hr & Hctl).
  rewrite Hrun, page_operation_runs by exact Hpage.
  eexists. split; [reflexivity|]. cbn.
  rewrite Hs, Ha, Hl, Htx, Hr, Hctl. unfold m0; cbn.
  repeat split; try assumption. apply Hprog, Hcol.
Qed.

(** The outer [while]: with enough fuel it returns, stopped by the
    time-out flag, after [k] page blocks at successive addresses. *)
Lemma main_loop_returns :
  forall fuel m,
    page_ok T ->
    (S (length (rx (serial m))) < fuel)%nat ->
    isLeave (vars m) = false ->
    exists m' k,
      main_loop T fuel m = Some m'
      /\ isTimeout (vars m') = true
      /\ isLeave (vars m') = false
      /\ spm m' = spm m ++ flat_map (page_block T) (cursors T k (address (vars m)))
      /\ address (vars m') = nth k (cursors T (S k) (address (vars m))) 0
      /\ (isTimeout (vars m) = false -> 1 <= k)%nat
      /\ (k <= S (length (rx (serial m))))%nat
      /\ tx (serial m') = tx (serial m)
      /\ regs m' = regs m
      /\ control m' = control m
      /\ (poll_budget m' <= poll_budget m
            + (if isTimeout (vars m) then 0 else MAX_TIME_COUNT + 1))%N.
Proof.
  induction fuel as [|f IH]; intros m Hpage Hf Hleave; [lia|].
  destruct (isTimeout (vars m)) eqn:Htime.
  - exists m, 0%nat. rewrite main_loop_stopped
      by (unfold stopped; rewrite Htime; apply orb_true_r).
    cbn. rewrite app_nil_r.
    repeat split; try reflexivity; try lia; try assumption; discriminate.
  - cbn [main_loop]. rewrite Hleave, Htime. cbn [negb andb].
    destruct (iteration_runs f m Hpage ltac:(lia))
      as (m1 & Hit & Hs & Ha & Hl & Htx & Hr & Hctl & Hb & Hprog).
    { unfold stopped. rewrite Hleave, Htime. reflexivity. }
    rewrite Hit.
    destruct (isTimeout (vars m1)) eqn:Ht1.
    + exists m1, 1%nat. rewrite main_loop_stopped
        by (unfold stopped; rewrite Ht1; apply orb_true_r).
      cbn. rewrite app_nil_r. repeat split; try assumption; try lia.
    + destruct Hprog as [Hprog|Hprog]; [discriminate|].
      destruct (IH m1 Hpage ltac:(lia) Hl)
        as (m' & k & Hrun & Ht' & Hl' & Hs' & Ha' & Hk1 & Hk & Htx' & Hr'
            & Hctl' & Hb').
      exists m', (S k). rewrite Ht1 in Hb'.
      split; [exact Hrun|]. split; [exact Ht'|]. split; [exact Hl'|].
      split; [rewrite Hs', Hs, Ha, <- app_assoc; reflexivity|].
      split; [rewrite Ha', Ha; reflexivity|].
      repeat split; try lia; congruence.
Qed.

(** [main] followed through any number of rounds of its [for(;;)]: the
    first round ends with the time-out flag set and the later ones find
    nothing to do. *)
Lemma main_returns :
  forall n fuel u r,
    page_ok T ->
    (S (length (rx u)) < fuel)%nat ->
    exists m k,
      main T (S n) fuel u r = Some m
      /\ isTimeout (vars m) = true
      /\ spm m = flat_map (page_block T) (cursors T k (midpoint T))
      /\ address (vars m) = nth k (cursors T (S k) (midpoint T)) 0
      /\ (1 <= k <= S (length (rx u)))%nat
      /\ tx (serial m) = tx u
      /\ regs m = startup r
      /\ control m = None
      /\ (polls (serial m)
          <= polls u + (MAX_TIME_COUNT + 1) * N.of_nat (S (length (rx u))))%N.
Proof.
  intros n fuel u r Hpage Hf.
  destruct (main_loop_returns fuel (boot T u r) Hpage Hf eq_refl)
    as (m & k & Hrun & Ht & Hl & Hs & Ha & Hk1 & Hk & Htx & Hr & Hctl & Hb).
  exists m, k. unfold main. cbn [forever]. rewrite Hrun.
  rewrite forever_stopped by (unfold stopped; rewrite Ht; apply orb_true_r).
  cbn in Hs, Ha, Hk, Htx, Hr, Hctl, Hb.
  repeat split; try assumption; try (apply Hk1; reflexivity).
  unfold poll_budget in Hb. cbn in Hb. lia.
Qed.

(** *** The address stays in the upper half of the application area *)

Lemma address_t_small :
  forall z, 0 <= z < address_width T -> address_t T z = z.
Proof.
  unfold address_width, address_t, uint32, uint16. intros z Hz.
  destruct (RAMPZ T); apply Z.mod_small; exact Hz.
Qed.

Lemma layout_facts :
  page_ok T -> layout_ok T ->
  midpoint T = Z.quot (FLASHEND T + 1) 2
  /\ 0 <= midpoint T
  /\ midpoint T + SPM_PAGESIZE T <= APP_END T
  /\ midpoint T mod SPM_PAGESIZE T = 0
  /\ APP_END T + 2 * SPM_PAGESIZE T < address_width T.
Proof.
  intros [[Hlo Hhi] _] (Hflash & Hmid & Hend & Hfit & Hwide).
  assert (Hq : 0 <= Z.quot (FLASHEND T + 1) 2)
    by (apply Z.quot_pos; lia).
  assert (Hm : midpoint T = Z.quot (FLASHEND T + 1) 2).
  { unfold midpoint. apply address_t_small. lia. }
  rewrite Hm. repeat split; assumption.
Qed.

Lemma cursor_ok_midpoint :
  page_ok T -> layout_ok T -> cursor_ok T (midpoint T).
Proof.
  intros Hpage Hlay.
  destruct (layout_facts Hpage Hlay) as (_ & H0 & Hfit & Hal & _).
  unfold cursor_ok. repeat split; try assumption; lia.
Qed.

(** Without wrap-around the advance reads: one page on, and back to the
    midpoint when the page after that would end beyond [APP_END + 1]. *)
Lemma next_address_no_wrap :
  forall a,
    page_ok T -> layout_ok T -> cursor_ok T a ->
    next_address T a
    = if a + 2 * SPM_PAGESIZE T >? APP_END T + 1 then midpoint T
      else a + SPM_PAGESIZE T.
Proof.
  intros a Hpage Hlay (Hlo & Hhi & _).
  destruct (layout_facts Hpage Hlay) as (_ & H0 & Hfit & _ & Hwide).
  destruct Hpage as [[Hp0 Hp1] _].
  unfold next_address.
  rewrite (address_t_small (a + SPM_PAGESIZE T)) by lia.
  rewrite (address_t_small (a + SPM_PAGESIZE T + SPM_PAGESIZE T)) by lia.
  rewrite (address_t_small (APP_END T + 1)) by lia.
  replace (a + SPM_PAGESIZE T + SPM_PAGESIZE T)
    with (a + 2 * SPM_PAGESIZE T) by lia.
  reflexivity.
Qed.

Lemma next_address_ok :
  forall a,
    page_ok T -> layout_ok T -> cursor_ok T a ->
    cursor_ok T (next_address T a).
Proof.
  intros a Hpage Hlay Hok.
  rewrite next_address_no_wrap by assumption.
  destruct (Z.gtb_spec (a + 2 * SPM_PAGESIZE T) (APP_END T + 1)) as [Hgt|Hle].
  - apply cursor_ok_midpoint; assumption.
  - destruct Hok as (Hlo & Hhi & Hal). destruct Hpage as [[Hp0 Hp1] _].
    unfold cursor_ok. repeat split; try lia.
    rewrite <- (Z.mul_1_l (SPM_PAGESIZE T)) at 1.
    rewrite Z.mod_add by lia. exact Hal.
Qed.

Lemma cursors_ok :
  forall k a,
    page_ok T -> layout_ok T -> cursor_ok T a ->
    Forall (cursor_ok T) (cursors T k a).
Proof.
  induction k as [|k IH]; intros a Hpage Hlay Hok; cbn [cursors].
  - constructor.
  - constructor; [exact Hok|]. apply IH; try assumption.
    apply next_address_ok; assumption.
Qed.

Lemma cursors_nth_ok :
  forall k a,
    page_ok T -> layout_ok T -> cursor_ok T a ->
    cursor_ok T (nth k (cursors T (S k) a) 0).
Proof.
  induction k as [|k IH]; intros a Hpage Hlay Hok.
  - exact Hok.
  - change (cursor_ok T (nth k (cursors T (S k) (next_address T a)) 0)).
    apply IH; try assumption. apply next_address_ok; assumption.
Qed.

(** A page that starts at a good address ends at or below [APP_END]: it
    has no byte of the boot section in it. *)
Lemma cursor_ok_below :
  forall a,
    page_ok T -> layout_ok T -> cursor_ok T a ->
    a + SPM_PAGESIZE T <= APP_END T.
Proof.
  intros a [[Hp0 Hp1] Heven] (_ & _ & Hend & _ & _) (_ & Hhi & Hal).
  apply Z.mod_divide in Hal; [|lia]. apply Z.mod_divide in Hend; [|lia].
  destruct Hal as [x Hx]. destruct Hend as [y Hy].
  rewrite Hx, Hy in *.
  assert (Hne : SPM_PAGESIZE T <> 1).
  { intros E. rewrite E in Heven. discriminate. }
  destruct (Z_le_gt_dec (x + 1) y) as [Hxy|Hxy]; [nia|].
  assert (Hbig : (y + 1) * SPM_PAGESIZE T <= (x + 1) * SPM_PAGESIZE T)
    by (apply Z.mul_le_mono_nonneg_r; lia).
  lia.
Qed.

End FirmwareFacts.

(** ** The target of the Pinoccio board *)

Lemma pinoccio_page_ok : page_ok pinoccio.
Proof. unfold page_ok; cbn. split; [lia|reflexivity]. Defined.

Lemma pinoccio_layout_ok : layout_ok pinoccio.
Proof. unfold layout_ok, APP_END, BOOTSIZE; cbn. repeat split; lia. Defined.

Lemma pinoccio_marker_ok : marker_ok pinoccio.
Proof. unfold marker_ok; cbn. lia. Defined.

(** ** The page block runs in every round *)

(** C1. In every round of the main loop, once the inner loop that collects
    bytes has ended (however it ended and whatever the line delivered),
    the page block runs: it erases the page at [address], fills the whole
    page buffer with the word 0xcfff and writes the page.  The calls it
    makes depend on [address] alone, and nothing is sent. *)
Theorem C1_page_block_unconditional :
  forall T fuel m,
    page_ok T ->
    (length (rx (serial m)) < fuel)%nat ->
    exists mc m',
      collect T fuel (with_vars (set_msgParseState ST_START (vars m)) m)
      = Some mc
      /\ page_operation T mc = Some m'
      /\ iteration T fuel m = Some m'
      /\ spm m' = spm m ++ page_block T (address (vars m))
      /\ tx (serial m') = tx (serial m).
Proof.
  intros T fuel m Hpage Hf. unfold iteration.
  set (m0 := with_vars (set_msgParseState ST_START (vars m)) m).
  destruct (collect_returns T fuel m0 Hf)
    as (mc & Hrun & _ & (Ha & _ & Htx & Hs & _ & _) & _).
  exists mc. eexists. rewrite Hrun, (page_operation_runs T mc Hpage).
  split; [reflexivity|]. split; [reflexivity|].
  split; [reflexivity|]. cbn. rewrite Hs, Ha, Htx. split; reflexivity.
Qed.

Lemma C1_page_block_unconditional_witness :
  exists mc m',
    collect pinoccio 5
      (with_vars (set_msgParseState ST_START
                    (vars (boot pinoccio (line [0x1B; 0; 0; 5])
                             after_watchdog_reset)))
         (boot pinoccio (line [0x1B; 0; 0; 5]) after_watchdog_reset))
    = Some mc
    /\ page_operation pinoccio mc = Some m'
    /\ iteration pinoccio 5
         (boot pinoccio (line [0x1B; 0; 0; 5]) after_watchdog_reset)
       = Some m'
    /\ spm m' = [] ++ page_block pinoccio 0x20000
    /\ tx (serial m') = [].
Proof.
  apply (C1_page_block_unconditional pinoccio 5
           (boot pinoccio (line [0x1B; 0; 0; 5]) after_watchdog_reset)).
  - exact pinoccio_page_ok.
  - cbn. lia.
Defined.

(** ** Start-up *)

Lemma uint8_testbit_low :
  forall z n, 0 <= n < 8 -> Z.testbit (uint8 z) n = Z.testbit z n.
Proof.
  intros z n Hn. unfold uint8. change 256 with (2 ^ 8).
  apply Z.mod_pow2_bits_low. lia.
Qed.

(** The first write of the timed sequence opens it. *)
Lemma write_WDTCSR_opens :
  forall old r,
    let r' := write_WDTCSR (Z.lor old (Z.lor (_BV WDCE) (_BV WDE))) r in
    wdt_unlocked r' = true /\ MCUSR r' = MCUSR r /\ GPIOR0 r' = GPIOR0 r
    /\ wdt_counter r' = wdt_counter r.
Proof.
  intros old r. cbv zeta. unfold write_WDTCSR.
  set (v := Z.lor old (Z.lor (_BV WDCE) (_BV WDE))).
  assert (H4 : Z.testbit (uint8 v) WDCE = true).
  { rewrite uint8_testbit_low by (unfold WDCE; lia).
    unfold v. rewrite !Z.lor_spec. cbn. apply orb_true_r. }
  assert (H3 : Z.testbit (uint8 v) WDE = true).
  { rewrite uint8_testbit_low by (unfold WDE; lia).
    unfold v. rewrite !Z.lor_spec. cbn. apply orb_true_r. }
  rewrite H4, H3. cbn. repeat split.
Qed.

(** Writing zero while the sequence is open and no reset flag is set
    clears the register. *)
Lemma write_WDTCSR_clears :
  forall r,
    wdt_unlocked r = true -> MCUSR r = 0 ->
    let r' := write_WDTCSR 0 r in
    WDTCSR r' = 0 /\ MCUSR r' = 0 /\ GPIOR0 r' = GPIOR0 r
    /\ wdt_counter r' = wdt_counter r.
Proof.
  intros r Hu Hm. cbv zeta. unfold write_WDTCSR.
  replace (uint8 0) with 0 by reflexivity.
  cbn [Z.testbit andb]. rewrite Hu, Hm. cbn. repeat split.
Qed.

(** The timed sequence of [watchdog_off] switches the watchdog off from
    any state of the registers. *)
Lemma watchdog_off_works :
  forall r,
    WDTCSR (watchdog_off r) = 0
    /\ MCUSR (watchdog_off r) = 0
    /\ wdt_counter (watchdog_off r) = 0%N
    /\ GPIOR0 (watchdog_off r) = GPIOR0 r.
Proof.
  intros r. unfold watchdog_off.
  set (r3 := write_MCUSR 0 (wdr (cli r))).
  assert (Hm : MCUSR r3 = 0) by (cbn; apply Z.land_0_r).
  assert (Hc : wdt_counter r3 = 0%N) by reflexivity.
  assert (Hg : GPIOR0 r3 = GPIOR0 r) by reflexivity.
  clearbody r3.
  destruct (write_WDTCSR_opens (WDTCSR r3) r3) as (Hu & Hm4 & Hg4 & Hc4).
  set (r4 := write_WDTCSR _ r3) in *. clearbody r4.
  destruct (write_WDTCSR_clears r4 Hu ltac:(congruence))
    as (Hw5 & Hm5 & Hg5 & Hc5).
  set (r5 := write_WDTCSR 0 r4) in *. clearbody r5.
  cbn. repeat split; congruence.
Qed.

(** C8. At start-up the reset cause in MCUSR is copied to GPIOR0, where
    the application finds it, before anything of the watchdog is touched:
    that step leaves MCUSR, WDTCSR and the watchdog counter as they were.
    Then, from any state of the registers, the watchdog is switched off
    and its counter and the reset flags are cleared, and GPIOR0 still
    holds the reset cause. *)
Theorem C8_reset_cause_saved_then_watchdog_off :
  forall r,
    startup r = watchdog_off (save_reset_cause r)
    /\ GPIOR0 (save_reset_cause r) = uint8 (MCUSR r)
    /\ MCUSR (save_reset_cause r) = MCUSR r
    /\ WDTCSR (save_reset_cause r) = WDTCSR r
    /\ wdt_counter (save_reset_cause r) = wdt_counter r
    /\ GPIOR0 (startup r) = uint8 (MCUSR r)
    /\ watchdog_running (startup r) = false
    /\ WDTCSR (startup r) = 0
    /\ wdt_counter (startup r) = 0%N
    /\ MCUSR (startup r) = 0.
Proof.
  intros r. unfold startup.
  destruct (watchdog_off_works (save_reset_cause r)) as (Hw & Hm & Hc & Hg).
  unfold watchdog_running. rewrite Hw, Hm, Hc, Hg.
  repeat split; reflexivity.
Qed.

(** ** The cursor after a page write *)

(** C5, as the specification words it, fails where the sum is exactly the
    boundary: from 0x3DF00, the address of the 480th round after reset,
    the sum 0x3E000 does not exceed [APP_END], yet the page block leaves
    [address] at the midpoint. *)
Lemma C5_wraps_at_boundary :
  nth 479 (cursors pinoccio 480 (midpoint pinoccio)) 0 = 0x3DF00
  /\ 0x3DF00 + SPM_PAGESIZE pinoccio <= APP_END pinoccio
  /\ spec_next_cursor pinoccio 0x3DF00 = 0x3E000
  /\ exists m',
      page_operation pinoccio
        (at_address pinoccio 0x3DF00 (line []) after_watchdog_reset)
      = Some m'
      /\ address (vars m') = 0x20000
      /\ address (vars m') <> spec_next_cursor pinoccio 0x3DF00.
Proof.
  split; [vm_compute; reflexivity|].
  split; [vm_compute; discriminate|].
  split; [vm_compute; reflexivity|].
  rewrite (page_operation_runs pinoccio _ pinoccio_page_ok).
  eexists. split; [reflexivity|]. split; vm_compute; [reflexivity|discriminate].
Qed.

(** C5, amended.  After a page write [address] is the previous value plus
    one page, except that it goes back to the midpoint when the new value
    plus one more page would exceed [APP_END + 1], that is, when the next
    page would not fit below the boundary. *)
Theorem C5_cursor_advance_or_wrap :
  forall T m,
    page_ok T -> layout_ok T -> cursor_ok T (address (vars m)) ->
    exists m',
      page_operation T m = Some m'
      /\ address (vars m')
         = if address (vars m) + 2 * SPM_PAGESIZE T >? APP_END T + 1
           then midpoint T
           else address (vars m) + SPM_PAGESIZE T.
Proof.
  intros T m Hpage Hlay Hok.
  rewrite (page_operation_runs T m Hpage). eexists. split; [reflexivity|].
  cbn. apply next_address_no_wrap; assumption.
Qed.

Lemma cursor_ok_3DF00 : cursor_ok pinoccio 0x3DF00.
Proof.
  unfold cursor_ok, APP_END, BOOTSIZE; cbn. repeat split; try lia.
  discriminate.
Defined.

Lemma C5_cursor_advance_or_wrap_witness :
  exists m',
    page_operation pinoccio
      (at_address pinoccio 0x3DF00 (line []) after_watchdog_reset)
    = Some m'
    /\ address (vars m')
       = if 0x3DF00 + 2 * SPM_PAGESIZE pinoccio >? APP_END pinoccio + 1
         then midpoint pinoccio
         else 0x3DF00 + SPM_PAGESIZE pinoccio.
Proof.
  apply (C5_cursor_advance_or_wrap pinoccio
           (at_address pinoccio 0x3DF00 (line []) after_watchdog_reset)).
  - exact pinoccio_page_ok.
  - exact pinoccio_layout_ok.
  - exact cursor_ok_3DF00.
Defined.

(** ** What the flash log of a run looks like *)

Section LogFacts.

Variable T : target.








(** Without wrap-around the fills of a page block are at [a], [a + 2],
    ... in turn: with [SPM_PAGESIZE / 2] of them, every word of the page. *)
Lemma fills_words :
  forall n a,
    0 <= a -> a + 2 * Z.of_nat n <= address_width T ->
    fills T n a
    = map (fun i => boot_page_fill (a + 2 * Z.of_nat i) 0xcfff) (seq 0 n).
Proof.
  induction n as [|n IH]; intros a Ha Hn; [reflexivity|].
  cbn [fills seq map]. replace (a + 2 * Z.of_nat 0) with a by lia. f_equal.
  destruct n as [|n]; [reflexivity|].
  rewrite address_t_small by lia. rewrite IH by lia.
  rewrite <- seq_shift, map_map.
  apply map_ext. intros i. f_equal. lia.
Qed.

Lemma fills_below :
  forall lim n a,
    0 <= a -> a + 2 * Z.of_nat n <= lim -> lim < address_width T ->
    Forall (fun op => match last_byte T op with
                      | Some z => z < lim
                      | None => True
                      end) (fills T n a).
Proof.
  intros lim. induction n as [|n IH]; intros a Ha Hn Hlim; cbn [fills].
  - constructor.
  - constructor; [cbn; lia|].
    rewrite address_t_small by lia. apply IH; lia.
Qed.

Lemma page_block_below :
  forall a,
    page_ok T -> layout_ok T -> cursor_ok T a ->
    Forall (below_boot T) (page_block T a).
Proof.
  intros a Hpage Hlay Hok.
  pose proof (cursor_ok_below T a Hpage Hlay Hok) as Hbelow.
  destruct (layout_facts T Hpage Hlay) as (_ & H0 & _ & _ & Hwide).
  destruct Hok as (Hlo & _ & Hal). destruct Hpage as [[Hp0 Hp1] Heven].
  assert (Hhalf : 2 * Z.of_nat (Z.to_nat (SPM_PAGESIZE T / 2))
                  = SPM_PAGESIZE T).
  { pose proof (Z.div_mod (SPM_PAGESIZE T) 2 ltac:(lia)) as Hdm.
    rewrite Heven in Hdm. lia. }
  unfold page_block. repeat (apply Forall_app; split).
  - repeat constructor; unfold below_boot; cbn; rewrite ?Hal; lia.
  - apply fills_below; lia.
  - repeat constructor; unfold below_boot; cbn; rewrite ?Hal; lia.
Qed.

Lemma blocks_below :
  forall addrs,
    page_ok T -> layout_ok T -> Forall (cursor_ok T) addrs ->
    Forall (below_boot T) (flat_map (page_block T) addrs).
Proof.
  intros addrs Hpage Hlay H. apply Forall_flat_map.
  eapply Forall_impl; [|exact H].
  intros a Ha. apply page_block_below; assumption.
Qed.

End LogFacts.

(** ** The boot section is never erased *)



(** ** The address invariant *)

(** C9. [address] starts at the midpoint of the flash, which is a good
    cursor, and the advance after each page write keeps it one: at least
    the midpoint, page-aligned, and with [address] plus one page at most
    [APP_END + 1].  So in every run of [main] the page blocks are at good
    cursors, and no erase, fill or write reaches a byte of the boot
    section. *)
Theorem C9_address_stays_in_application_area :
  forall T n fuel u r,
    page_ok T -> layout_ok T ->
    (S (length (rx u)) < fuel)%nat ->
    address (initial_locals T) = midpoint T
    /\ cursor_ok T (midpoint T)
    /\ (forall a, cursor_ok T a -> cursor_ok T (next_address T a))
    /\ exists m k,
        main T (S n) fuel u r = Some m
        /\ spm m = flat_map (page_block T) (cursors T k (midpoint T))
        /\ Forall (fun a => a + SPM_PAGESIZE T <= APP_END T + 1)
             (cursors T k (midpoint T))
        /\ cursor_ok T (address (vars m))
        /\ Forall (below_boot T) (spm m).
Proof.
  intros T n fuel u r Hpage Hlay Hf.
  pose proof (cursor_ok_midpoint T Hpage Hlay) as Hmid.
  split; [reflexivity|]. split; [exact Hmid|].
  split; [intros a Ha; apply next_address_ok; assumption|].
  destruct (main_returns T n fuel u r Hpage Hf)
    as (m & k & Hrun & _ & Hs & Ha & _).
  pose proof (cursors_ok T k _ Hpage Hlay Hmid) as Hall.
  exists m, k. split; [exact Hrun|]. split; [exact Hs|].
  split; [eapply Forall_impl; [|exact Hall]; intros a (_ & H & _); exact H|].
  split; [rewrite Ha; apply cursors_nth_ok; assumption|].
  rewrite Hs. apply blocks_below; assumption.
Qed.

Lemma C9_address_stays_in_application_area_witness :
  address (initial_locals pinoccio) = midpoint pinoccio
  /\ cursor_ok pinoccio (midpoint pinoccio)
  /\ (forall a, cursor_ok pinoccio a ->
                cursor_ok pinoccio (next_address pinoccio a))
  /\ exists m k,
      main pinoccio 1 6 (line [0x1B; 0; 0; 5]) after_watchdog_reset = Some m
      /\ spm m = flat_map (page_block pinoccio)
                   (cursors pinoccio k (midpoint pinoccio))
      /\ Forall (fun a => a + SPM_PAGESIZE pinoccio <= APP_END pinoccio + 1)
           (cursors pinoccio k (midpoint pinoccio))
      /\ cursor_ok pinoccio (address (vars m))
      /\ Forall (below_boot pinoccio) (spm m).
Proof.
  apply (C9_address_stays_in_application_area pinoccio 0 6
           (line [0x1B; 0; 0; 5]) after_watchdog_reset).
  - exact pinoccio_page_ok.
  - exact pinoccio_layout_ok.
  - cbn. lia.
Defined.

(** ** The receive state machine, state by state *)

Section ParserFacts.

Variable T : target.

Lemma parse_switch_start :
  forall l,
    msgParseState l = ST_START ->
    parse_switch T l
    = if c l =? MESSAGE_START T then set_msgParseState ST_MSG_SIZE_1 l else l.
Proof. intros l H. unfold parse_switch. rewrite H. reflexivity. Qed.

Lemma parse_switch_size_1 :
  forall l,
    msgParseState l = ST_MSG_SIZE_1 ->
    parse_switch T l
    = set_msgParseState ST_MSG_SIZE_2
        (set_msgLength (uint16 (Z.shiftl (c l) 8)) l).
Proof. intros l H. unfold parse_switch. rewrite H. reflexivity. Qed.

Lemma parse_switch_size_2 :
  forall l,
    msgParseState l = ST_MSG_SIZE_2 ->
    parse_switch T l
    = set_ii 0
        (set_msgParseState ST_GET_DATA
           (set_msgLength (uint16 (Z.lor (msgLength l) (c l))) l)).
Proof. intros l H. unfold parse_switch. rewrite H. reflexivity. Qed.

Lemma parse_switch_data :
  forall l,
    msgParseState l = ST_GET_DATA ->
    parse_switch T l
    = if ii l =? msgLength l then set_msgParseState ST_PROCESS l else l.
Proof. intros l H. unfold parse_switch. rewrite H. reflexivity. Qed.

(** No case of the switch counts [ii] up: it is left alone or set to 0. *)
Lemma parse_switch_ii :
  forall l, ii (parse_switch T l) = ii l \/ ii (parse_switch T l) = 0.
Proof.
  intros l. unfold parse_switch.
  repeat match goal with
         | |- context [if ?b then _ else _] => destruct b
         end; cbn; auto.
Qed.

(** A round of the inner loop when the next byte is there in time. *)
Lemma collect_body_byte :
  forall m d b r,
    rx (serial m) = (d, b) :: r ->
    (d <= MAX_TIME_COUNT)%N ->
    collect_body T m
    = {| vars := parse_switch T (set_isTimeout (isTimeout (vars m))
                                   (set_c (uint8 b) (vars m)));
         serial := {| rx := r; tx := tx (serial m);
                      polls := (polls (serial m) + d + 1)%N |};
         spm := spm m; regs := regs m; control := control m |}.
Proof.
  intros [l [rxl t p] log rg ctl] d b r Hrx Hd. cbn in Hrx. subst rxl.
  unfold collect_body, read_c, recchar_timeout, recchar_timeout_from.
  cbn [serial vars rx tx polls].
  destruct (N.ltb_spec d (MAX_TIME_COUNT + 1 - 0)) as [_|Hge]; [|lia].
  reflexivity.
Qed.

(** The declared length, as the two length bytes give it. *)
Lemma msgLength_of_bytes :
  forall h l,
    0 <= h < 256 -> 0 <= l < 256 ->
    uint16 (Z.lor (uint16 (Z.shiftl h 8)) l) = 256 * h + l.
Proof.
  intros h l Hh Hl.
  assert (Hs : uint16 (Z.shiftl h 8) = h * 2 ^ 8).
  { rewrite Z.shiftl_mul_pow2 by lia. unfold uint16.
    apply Z.mod_small. lia. }
  rewrite Hs.
  assert (Hland : Z.land (h * 2 ^ 8) l = 0).
  { apply Z.bits_inj'. intros n Hn. rewrite Z.land_spec, Z.bits_0.
    destruct (Z_lt_ge_dec n 8) as [Hlt|Hge].
    - rewrite Z.mul_pow2_bits_low by lia. reflexivity.
    - replace l with (l mod 2 ^ 8) by (apply Z.mod_small; lia).
      rewrite Z.mod_pow2_bits_high by lia. apply andb_false_r. }
  rewrite <- Z.lxor_lor by exact Hland.
  rewrite <- Z.add_nocarry_lxor by exact Hland.
  unfold uint16. rewrite Z.mod_small; lia.
Qed.

Lemma uint8_range : forall z, 0 <= uint8 z < 256.
Proof. intros z. unfold uint8. apply Z.mod_pos_bound. lia. Qed.

(** The three header bytes take the parser from the start state to the
    data state, with [ii] at zero and the length they declare. *)
Lemma collect_header :
  forall m hi lo d1 d2 d3 rest,
    marker_ok T ->
    msgParseState (vars m) = ST_START ->
    isLeave (vars m) = false ->
    isTimeout (vars m) = false ->
    (d1 <= MAX_TIME_COUNT)%N -> (d2 <= MAX_TIME_COUNT)%N ->
    (d3 <= MAX_TIME_COUNT)%N ->
    rx (serial m) = (d1, MESSAGE_START T) :: (d2, hi) :: (d3, lo) :: rest ->
    exists m3,
      (forall f, collect T (S (S (S f))) m = collect T f m3)
      /\ msgParseState (vars m3) = ST_GET_DATA
      /\ ii (vars m3) = 0
      /\ msgLength (vars m3) = 256 * uint8 hi + uint8 lo
      /\ isLeave (vars m3) = false
      /\ isTimeout (vars m3) = false
      /\ rx (serial m3) = rest.
Proof.
  intros [[a s i len ch lv tm] [rxl t p] log rg ctl] hi lo d1 d2 d3 rest
    Hmark Hs Hl Ht H1 H2 H3 Hrx.
  cbn in Hs, Hl, Ht, Hrx. subst s lv tm rxl.
  eexists. split.
  - intros f.
    cbn [collect vars collecting msgParseState isLeave isTimeout].
    change (negb (ST_START =? ST_PROCESS) && negb false && negb false)
      with true. cbv iota.
    erewrite collect_body_byte by (cbn; try reflexivity; assumption).
    cbn [vars isTimeout set_c set_isTimeout address msgParseState ii
           msgLength c isLeave].
    rewrite parse_switch_start by reflexivity.
    cbn [c]. replace (uint8 (MESSAGE_START T)) with (MESSAGE_START T)
      by (unfold uint8; symmetry; apply Z.mod_small; exact Hmark).
    rewrite Z.eqb_refl.
    cbn [collect vars collecting msgParseState isLeave isTimeout
           set_msgParseState].
    change (negb (ST_MSG_SIZE_1 =? ST_PROCESS) && negb false && negb false)
      with true. cbv iota.
    erewrite collect_body_byte by (cbn; try reflexivity; assumption).
    cbn [vars isTimeout set_c set_isTimeout address msgParseState ii
           msgLength c isLeave].
    rewrite parse_switch_size_1 by reflexivity.
    cbn [collect vars collecting msgParseState isLeave isTimeout
           set_msgParseState set_msgLength c].
    change (negb (ST_MSG_SIZE_2 =? ST_PROCESS) && negb false && negb false)
      with true. cbv iota.
    erewrite collect_body_byte by (cbn; try reflexivity; assumption).
    cbn [vars isTimeout set_c set_isTimeout address msgParseState ii
           msgLength c isLeave].
    rewrite parse_switch_size_2 by reflexivity.
    cbn [vars isTimeout set_c set_isTimeout address msgParseState ii
           msgLength c isLeave set_ii set_msgParseState set_msgLength
           serial tx polls].
    reflexivity.
  - cbn. repeat split.
    apply msgLength_of_bytes; apply uint8_range.
Qed.

(** In the data state with [ii] different from the length the parser
    stays where it is until a read times out. *)
Lemma collect_data_stuck :
  forall fuel m,
    msgParseState (vars m) = ST_GET_DATA ->
    ii (vars m) <> msgLength (vars m) ->
    isLeave (vars m) = false ->
    isTimeout (vars m) = false ->
    (length (rx (serial m)) < fuel)%nat ->
    exists m',
      collect T fuel m = Some m'
      /\ msgParseState (vars m') = ST_GET_DATA
      /\ isTimeout (vars m') = true.
Proof.
  induction fuel as [|f IH]; intros m Hs Hne Hl Ht Hf; [lia|].
  cbn [collect]. unfold collecting. rewrite Hs, Hl, Ht.
  change (negb (ST_GET_DATA =? ST_PROCESS) && negb false && negb false)
    with true. cbv iota.
  destruct (read_c_parser m) as (Hs' & Hi' & Hlen').
  destruct (read_c_same m) as (_ & Hl' & _).
  assert (Hv : vars (collect_body T m) = vars (read_c m)).
  { unfold collect_body; cbn [vars with_vars].
    rewrite parse_switch_data by congruence.
    destruct (Z.eqb_spec (ii (vars (read_c m))) (msgLength (vars (read_c m))));
      [congruence|reflexivity]. }
  destruct (collect_body_outcome T m)
    as [d b r Hrx Hd Hrx' Hc Ht' Hp|Hlen Hc Ht' Hp].
  - apply IH; rewrite ?Hv; try congruence.
    rewrite Hrx in Hf. rewrite Hrx'. cbn [length] in Hf. lia.
  - exists (collect_body T m).
    split; [apply collect_done, collecting_timeout, Ht'|].
    split; [rewrite Hv; congruence|exact Ht'].
Qed.

(** In the data state with [ii] equal to the length, one more round,
    whatever it reads, ends the collection in the process state. *)
Lemma collect_data_done :
  forall f m,
    msgParseState (vars m) = ST_GET_DATA ->
    ii (vars m) = msgLength (vars m) ->
    isLeave (vars m) = false ->
    isTimeout (vars m) = false ->
    collect T (S f) m = Some (collect_body T m)
    /\ msgParseState (vars (collect_body T m)) = ST_PROCESS.
Proof.
  intros f m Hs He Hl Ht.
  destruct (read_c_parser m) as (Hs' & Hi' & Hlen').
  assert (Hp : msgParseState (vars (collect_body T m)) = ST_PROCESS).
  { unfold collect_body; cbn [vars with_vars].
    rewrite parse_switch_data by congruence.
    destruct (Z.eqb_spec (ii (vars (read_c m))) (msgLength (vars (read_c m))));
      [reflexivity|congruence]. }
  split; [|exact Hp].
  cbn [collect]. unfold collecting at 1. rewrite Hs, Hl, Ht.
  change (negb (ST_GET_DATA =? ST_PROCESS) && negb false && negb false)
    with true. cbv iota.
  apply collect_done. unfold collecting. rewrite Hp. reflexivity.
Qed.

End ParserFacts.

(** ** The data state never counts *)

(** C10. The data state of the switch never changes [ii].  So when the
    start marker and two length bytes arrive in time and declare a length
    other than zero, the inner loop ends, whatever follows on the line, in
    the data state and with the time-out flag set: it never reaches the
    process state.  When they declare the length zero, exactly one more
    round of the loop follows and ends in the process state; if a byte is
    there in time for it, that one byte is taken from the line and the
    time-out flag stays clear. *)
Theorem C10_data_state_never_counts :
  forall T fuel m hi lo d1 d2 d3 rest,
    marker_ok T ->
    msgParseState (vars m) = ST_START ->
    isLeave (vars m) = false ->
    isTimeout (vars m) = false ->
    (d1 <= MAX_TIME_COUNT)%N -> (d2 <= MAX_TIME_COUNT)%N ->
    (d3 <= MAX_TIME_COUNT)%N ->
    rx (serial m) = (d1, MESSAGE_START T) :: (d2, hi) :: (d3, lo) :: rest ->
    (length (rx (serial m)) < fuel)%nat ->
    (forall l, msgParseState l = ST_GET_DATA -> ii (parse_switch T l) = ii l)
    /\ (256 * uint8 hi + uint8 lo <> 0 ->
        exists m',
          collect T fuel m = Some m'
          /\ msgParseState (vars m') = ST_GET_DATA
          /\ msgParseState (vars m') <> ST_PROCESS
          /\ isTimeout (vars m') = true)
    /\ (256 * uint8 hi + uint8 lo = 0 ->
        exists m3,
          rx (serial m3) = rest
          /\ collect T 3 m = None
          /\ collect T fuel m = Some (collect_body T m3)
          /\ msgParseState (vars (collect_body T m3)) = ST_PROCESS
          /\ forall d b r,
              rest = (d, b) :: r -> (d <= MAX_TIME_COUNT)%N ->
              rx (serial (collect_body T m3)) = r
              /\ isTimeout (vars (collect_body T m3)) = false).
Proof.
  intros T fuel m hi lo d1 d2 d3 rest Hmark Hs Hl Ht H1 H2 H3 Hrx Hf.
  destruct (collect_header T m hi lo d1 d2 d3 rest Hmark Hs Hl Ht H1 H2 H3 Hrx)
    as (m3 & Hrun & Hs3 & Hi3 & Hlen3 & Hl3 & Ht3 & Hrx3).
  rewrite Hrx in Hf. cbn [length] in Hf.
  destruct fuel as [|[|[|f]]]; try lia.
  split.
  { intros l Hd. rewrite parse_switch_data by exact Hd.
    destruct (ii l =? msgLength l); reflexivity. }
  split.
  - intros Hne. rewrite Hrun.
    destruct (collect_data_stuck T f m3 Hs3 ltac:(congruence) Hl3 Ht3)
      as (m' & Hrun' & Hs' & Ht'); [rewrite Hrx3; lia|].
    exists m'. repeat split; try assumption.
    rewrite Hs'. discriminate.
  - intros Hz. exists m3. split; [exact Hrx3|].
    split.
    { rewrite Hrun. cbn [collect]. unfold collecting.
      rewrite Hs3, Hl3, Ht3. reflexivity. }
    destruct f as [|f]; [lia|]. rewrite Hrun.
    destruct (collect_data_done T f m3 Hs3 ltac:(congruence) Hl3 Ht3)
      as (Hrun' & Hp).
    split; [exact Hrun'|]. split; [exact Hp|].
    intros d b r Hrest Hd.
    destruct (collect_body_outcome T m3)
      as [d' b' r' Hrx' Hd' Hrx'' Hc Ht' Hpolls|Hlen Hc Ht' Hpolls].
    + rewrite Hrx3, Hrest in Hrx'. injection Hrx' as _ _ <-.
      split; [exact Hrx''|congruence].
    + exfalso. revert Hlen Hpolls. rewrite (collect_body_byte T m3 d b r);
        [|congruence|exact Hd]. cbn [serial polls rx].
      rewrite Hrx3, Hrest. cbn [length]. lia.
Qed.

Lemma C10_data_state_never_counts_witness :
  (forall l, msgParseState l = ST_GET_DATA ->
             ii (parse_switch pinoccio l) = ii l)
  /\ (256 * uint8 0 + uint8 0 <> 0 ->
      exists m',
        collect pinoccio 6
          (boot pinoccio (line [0x1B; 0; 0; 0x41; 7]) after_watchdog_reset)
        = Some m'
        /\ msgParseState (vars m') = ST_GET_DATA
        /\ msgParseState (vars m') <> ST_PROCESS
        /\ isTimeout (vars m') = true)
  /\ (256 * uint8 0 + uint8 0 = 0 ->
      exists m3,
        rx (serial m3) = [(0%N, 0x41); (0%N, 7)]
        /\ collect pinoccio 3
             (boot pinoccio (line [0x1B; 0; 0; 0x41; 7]) after_watchdog_reset)
           = None
        /\ collect pinoccio 6
             (boot pinoccio (line [0x1B; 0; 0; 0x41; 7]) after_watchdog_reset)
           = Some (collect_body pinoccio m3)
        /\ msgParseState (vars (collect_body pinoccio m3)) = ST_PROCESS
        /\ forall d b r,
            [(0%N, 0x41); (0%N, 7)] = (d, b) :: r ->
            (d <= MAX_TIME_COUNT)%N ->
            rx (serial (collect_body pinoccio m3)) = r
            /\ isTimeout (vars (collect_body pinoccio m3)) = false).
Proof.
  apply (C10_data_state_never_counts pinoccio 6
           (boot pinoccio (line [0x1B; 0; 0; 0x41; 7]) after_watchdog_reset)
           0 0 0%N 0%N 0%N [(0%N, 0x41); (0%N, 7)]).
  - exact pinoccio_marker_ok.
  - reflexivity.
  - reflexivity.
  - reflexivity.
  - vm_compute; discriminate.
  - vm_compute; discriminate.
  - vm_compute; discriminate.
  - reflexivity.
  - cbn. lia.
Defined.

(** ** Frames, answers and the way out *)

(** Once the first round of the [for(;;)] has stopped, all later rounds
    leave the machine as it is. *)
Lemma main_rounds :
  forall T n fuel u r m,
    main T 1 fuel u r = Some m ->
    stopped m = true ->
    main T (S n) fuel u r = Some m.
Proof.
  intros T n fuel u r m H Hstop. unfold main in *. cbn [forever] in *.
  destruct (main_loop T fuel (boot T u r)) as [m1|]; [|discriminate].
  injection H as ->. apply forever_stopped, Hstop.
Qed.

(** C2, at two inputs.  The four bytes 1B 00 00 41 are no frame of the
    specification (no token, no check byte that matches), yet the inner
    loop ends in the process state on them, and changing the last byte
    changes nothing.  The well-formed frame 1B 01 00 01 0E 01 14 is not
    accepted: its sequence number is taken as the high length byte and the
    loop ends in the data state by time-out. *)
Theorem C2_checksum_never_checked :
  spec_frame_ok pinoccio [0x1B; 0; 0; 0x41] = false
  /\ (exists m',
        collect pinoccio 5
          (boot pinoccio (line [0x1B; 0; 0; 0x41]) after_watchdog_reset)
        = Some m'
        /\ msgParseState (vars m') = ST_PROCESS
        /\ isTimeout (vars m') = false
        /\ rx (serial m') = [])
  /\ (exists m',
        collect pinoccio 5
          (boot pinoccio (line [0x1B; 0; 0; 0x42]) after_watchdog_reset)
        = Some m'
        /\ msgParseState (vars m') = ST_PROCESS)
  /\ spec_frame_ok pinoccio [0x1B; 1; 0; 1; 0x0E; 1; 0x14] = true
  /\ (exists m',
        collect pinoccio 8
          (boot pinoccio (line [0x1B; 1; 0; 1; 0x0E; 1; 0x14])
             after_watchdog_reset)
        = Some m'
        /\ msgParseState (vars m') = ST_GET_DATA
        /\ msgLength (vars m') = 0x0100
        /\ isTimeout (vars m') = true).
Proof.
  split; [reflexivity|].
  split; [eexists; split; [vm_compute; reflexivity|repeat split]|].
  split; [eexists; split; [vm_compute; reflexivity|repeat split]|].
  split; [reflexivity|].
  eexists; split; [vm_compute; reflexivity|repeat split].
Qed.

(** C3, on a silent line.  The first read times out; the round still runs
    its page block at the midpoint, the outer loop ends, and from then on
    every round of the [for(;;)] finds the machine as it was: nothing is
    sent, and [main] never calls [app_start], so control stays where it
    is. *)
Theorem C3_timeout_never_starts_application :
  forall n,
    exists m,
      main pinoccio (S n) 2 (line []) after_watchdog_reset = Some m
      /\ isTimeout (vars m) = true
      /\ spm m = page_block pinoccio (midpoint pinoccio)
      /\ tx (serial m) = []
      /\ control m = None
      /\ control m <> Some app_start
      /\ forever pinoccio 1 2 m = Some m.
Proof.
  intros n. eexists. split.
  - apply main_rounds; [vm_compute; reflexivity|reflexivity].
  - repeat split; discriminate.
Qed.

(** C6, at two inputs.  The bytes 1B 00 00 05 take the inner loop to the
    process state and the page block runs for them, and the STK500v2
    sign-on frame with sequence number 5 is read to its end; in neither
    case is a single byte sent, after any number of rounds. *)
Theorem C6_no_response_is_sent :
  forall n,
    (exists m,
       main pinoccio (S n) 6 (line [0x1B; 0; 0; 5]) after_watchdog_reset
       = Some m
       /\ rx (serial m) = []
       /\ spm m = page_block pinoccio 0x20000 ++ page_block pinoccio 0x20100
       /\ tx (serial m) = [])
    /\ (exists m,
          main pinoccio (S n) 9 (line [0x1B; 5; 0; 1; 0x0E; 1; 0x10])
            after_watchdog_reset
          = Some m
          /\ rx (serial m) = []
          /\ tx (serial m) = []).
Proof.
  intros n. split.
  - eexists. split.
    + apply main_rounds; [vm_compute; reflexivity|reflexivity].
    + repeat split.
  - eexists. split.
    + apply main_rounds; [vm_compute; reflexivity|reflexivity].
    + repeat split.
Qed.

(** ** Every read is bounded *)

(** C7, as the specification words it, fails for the first byte of a
    frame: on a silent line the unbounded [recchar] returns for no amount
    of fuel, but the inner loop, idle in its start state, is back after
    the 8000001 polls of one time-out window with the flag set.  The wait
    for the first byte is the bounded one. *)
Lemma C7_first_byte_wait_is_bounded :
  (forall fuel, recchar fuel (line []) = None)
  /\ msgParseState (vars (boot pinoccio (line []) after_watchdog_reset))
     = ST_START
  /\ exists m',
      collect pinoccio 1 (boot pinoccio (line []) after_watchdog_reset)
      = Some m'
      /\ isTimeout (vars m') = true
      /\ polls (serial m') = 8000001%N.
Proof.
  split; [intros fuel; apply recchar_silent|].
  split; [reflexivity|].
  eexists. split; [vm_compute; reflexivity|]. split; reflexivity.
Qed.

(** C7, amended.  Every read of the main loop, the one for the first byte
    of a frame included, is [recchar_timeout], whose loop returns within
    [MAX_TIME_COUNT + 2] rounds and [MAX_TIME_COUNT + 1] polls on any
    line; [recchar] is not used.  And no other operation blocks: from any
    state of the machine the inner loop returns, the fill loop of the page
    block ends after [SPM_PAGESIZE / 2] fills and the page block returns,
    a round of the outer loop returns, the outer loop itself returns,
    stopped, after at most one time-out window of polls for each byte on
    the line and one more, and every later round of the [for(;;)] returns
    at once. *)
Theorem C7_every_read_is_bounded :
  forall T fuel m,
    page_ok T ->
    (S (length (rx (serial m))) < fuel)%nat ->
    (forall timedout u,
        recchar_timeout_loop (N.to_nat (MAX_TIME_COUNT + 2)) 0 timedout u
        = Some (recchar_timeout timedout u)
        /\ (polls (snd (recchar_timeout timedout u))
            <= polls u + MAX_TIME_COUNT + 1)%N)
    /\ (exists m',
          collect T fuel m = Some m'
          /\ (polls (serial m')
              <= polls (serial m)
                 + (MAX_TIME_COUNT + 1)
                   * N.of_nat (S (length (rx (serial m)))))%N)
    /\ (exists m',
          page_operation T m = Some m'
          /\ spm m' = spm m ++ page_block T (address (vars m))
          /\ length (page_block T (address (vars m)))
             = (5 + Z.to_nat (SPM_PAGESIZE T / 2))%nat
          /\ serial m' = serial m)
    /\ (exists m', iteration T fuel m = Some m')
    /\ (exists m',
          main_loop T fuel m = Some m'
          /\ stopped m' = true
          /\ (polls (serial m')
              <= polls (serial m)
                 + (MAX_TIME_COUNT + 1)
                   * N.of_nat (S (length (rx (serial m)))))%N
          /\ forall k, forever T k fuel m' = Some m').
Proof.
  intros T fuel m Hpage Hf. split.
  { intros timedout u. split.
    + apply recchar_timeout_loop_returns. lia.
    + destruct u as [r t p].
      unfold recchar_timeout, recchar_timeout_from; cbn [rx tx polls].
      destruct r as [|[d b] r]; [cbn; lia|].
      destruct (N.ltb_spec d (MAX_TIME_COUNT + 1 - 0)); cbn; lia. }
  split.
  { destruct (collect_returns T fuel m ltac:(lia))
      as (m' & Hrun & _ & _ & _ & Hb & _).
    exists m'. split; [exact Hrun|].
    unfold poll_budget in Hb.
    destruct (isTimeout (vars m')); lia. }
  split.
  { rewrite (page_operation_runs T m Hpage). eexists.
    split; [reflexivity|]. cbn [spm serial]. repeat split.
    unfold page_block. rewrite !length_app, length_fills. cbn [length]. lia. }
  split.
  { apply iteration_returns; [exact Hpage|lia]. }
  destruct (isLeave (vars m)) eqn:Hl.
  - exists m.
    assert (Hstop : stopped m = true) by (unfold stopped; rewrite Hl; reflexivity).
    split; [apply main_loop_stopped, Hstop|]. split; [exact Hstop|].
    split; [lia|]. intros k. apply forever_stopped, Hstop.
  - destruct (main_loop_returns T fuel m Hpage Hf Hl)
      as (m' & k & Hrun & Ht & _ & _ & _ & _ & _ & _ & _ & _ & Hb).
    assert (Hstop : stopped m' = true)
      by (unfold stopped; rewrite Ht; apply orb_true_r).
    exists m'. split; [exact Hrun|]. split; [exact Hstop|].
    split; [|intros j; apply forever_stopped, Hstop].
    unfold poll_budget in Hb.
    destruct (isTimeout (vars m)); nia.
Qed.

Lemma C7_every_read_is_bounded_witness :
  (forall timedout u,
      recchar_timeout_loop (N.to_nat (MAX_TIME_COUNT + 2)) 0 timedout u
      = Some (recchar_timeout timedout u)
      /\ (polls (snd (recchar_timeout timedout u))
          <= polls u + MAX_TIME_COUNT + 1)%N)
  /\ (exists m',
        collect pinoccio 2 (boot pinoccio (line []) after_watchdog_reset)
        = Some m'
        /\ (polls (serial m')
            <= polls (serial (boot pinoccio (line []) after_watchdog_reset))
               + (MAX_TIME_COUNT + 1)
                 * N.of_nat
                     (S (length
                           (rx (serial (boot pinoccio (line [])
                                          after_watchdog_reset))))))%N)
  /\ (exists m',
        page_operation pinoccio
          (boot pinoccio (line []) after_watchdog_reset)
        = Some m'
        /\ spm m'
           = spm (boot pinoccio (line []) after_watchdog_reset)
             ++ page_block pinoccio
                  (address (vars (boot pinoccio (line [])
                                    after_watchdog_reset)))
        /\ length
             (page_block pinoccio
                (address (vars (boot pinoccio (line [])
                                  after_watchdog_reset))))
           = (5 + Z.to_nat (SPM_PAGESIZE pinoccio / 2))%nat
        /\ serial m' = serial (boot pinoccio (line []) after_watchdog_reset))
  /\ (exists m',
        iteration pinoccio 2 (boot pinoccio (line []) after_watchdog_reset)
        = Some m')
  /\ (exists m',
        main_loop pinoccio 2 (boot pinoccio (line []) after_watchdog_reset)
        = Some m'
        /\ stopped m' = true
        /\ (polls (serial m')
            <= polls (serial (boot pinoccio (line []) after_watchdog_reset))
               + (MAX_TIME_COUNT + 1)
                 * N.of_nat
                     (S (length
                           (rx (serial (boot pinoccio (line [])
                                          after_watchdog_reset))))))%N
        /\ forall k, forever pinoccio k 2 m' = Some m').
Proof.
  apply (C7_every_read_is_bounded pinoccio 2
           (boot pinoccio (line []) after_watchdog_reset)).
  - exact pinoccio_page_ok.
  - cbn. lia.
Defined.

(** ** The two receive routines *)

(** [recchar] returns exactly when the byte has arrived: with the next
    byte [d] polls away it needs more than [d] rounds, and then it has
    polled [d + 1] times, yields the low eight bits of the byte and has
    taken it off the line.  With nothing on the line it never returns. *)
Theorem recchar_waits_for_the_byte :
  forall fuel d b r t p,
    recchar fuel {| rx := (d, b) :: r; tx := t; polls := p |}
    = (if (d <? N.of_nat fuel)%N
       then Some (uint8 b, {| rx := r; tx := t; polls := (p + d + 1)%N |})
       else None)
    /\ recchar fuel {| rx := []; tx := t; polls := p |} = None.
Proof.
  intros fuel d b r t p. split; [|apply recchar_silent].
  revert d p. induction fuel as [|f IH]; intros d p.
  - cbn [recchar]. destruct (N.ltb_spec d (N.of_nat 0)); [lia|reflexivity].
  - cbn [recchar]. destruct d as [|d].
    + unfold UDR, poll, RXC; cbn [rx tx polls].
      destruct (N.ltb_spec 0 (N.of_nat (S f))); [|lia].
      do 3 f_equal. lia.
    + unfold RXC at 1; cbn [rx]. unfold poll, RXC; cbn [rx tx polls].
      rewrite IH.
      destruct (N.ltb_spec (N.pred (N.pos d)) (N.of_nat f));
        destruct (N.ltb_spec (N.pos d) (N.of_nat (S f))); try lia;
        [|reflexivity].
      do 3 f_equal. lia.
Qed.

(** Where both return a byte they agree: when the next byte is at most
    [MAX_TIME_COUNT] polls away, [recchar_timeout] yields the byte and the
    line [recchar] yields, and leaves the caller's flag as it was. *)
Theorem recchar_timeout_agrees_with_recchar :
  forall fuel timedout d b r t p,
    (d <= MAX_TIME_COUNT)%N ->
    (d < N.of_nat fuel)%N ->
    exists ch u',
      recchar fuel {| rx := (d, b) :: r; tx := t; polls := p |}
      = Some (ch, u')
      /\ recchar_timeout_loop (N.to_nat (MAX_TIME_COUNT + 2)) 0 timedout
           {| rx := (d, b) :: r; tx := t; polls := p |}
         = Some (ch, timedout, u').
Proof.
  intros fuel timedout d b r t p Hd Hf.
  destruct (recchar_waits_for_the_byte fuel d b r t p) as [Hr _].
  destruct (N.ltb_spec d (N.of_nat fuel)); [|lia].
  do 2 eexists. split; [exact Hr|].
  rewrite recchar_timeout_loop_returns by lia.
  unfold recchar_timeout, recchar_timeout_from; cbn [rx tx polls].
  destruct (N.ltb_spec d (MAX_TIME_COUNT + 1 - 0)); [reflexivity|lia].
Qed.

Lemma recchar_timeout_agrees_with_recchar_witness :
  exists ch u',
    recchar 4 {| rx := [(3%N, 0x1B)]; tx := []; polls := 0 |} = Some (ch, u')
    /\ recchar_timeout_loop (N.to_nat (MAX_TIME_COUNT + 2)) 0 false
         {| rx := [(3%N, 0x1B)]; tx := []; polls := 0 |}
       = Some (ch, false, u').
Proof.
  apply (recchar_timeout_agrees_with_recchar 4 false 3%N 0x1B [] [] 0%N).
  - vm_compute; discriminate.
  - vm_compute; reflexivity.
Defined.

(** [recchar_timeout] sets the caller's flag and never clears it; it sets
    it exactly when the next byte is more than [MAX_TIME_COUNT] polls away
    or there is none, it then yields the NUL character after
    [MAX_TIME_COUNT + 1] polls, and it has not read the data register: the
    bytes of the line are all still to come. *)
Theorem recchar_timeout_flag :
  forall timedout u,
    exists ch t' u',
      recchar_timeout_loop (N.to_nat (MAX_TIME_COUNT + 2)) 0 timedout u
      = Some (ch, t', u')
      /\ (timedout = true -> t' = true)
      /\ (t' = true <->
          timedout = true
          \/ match rx u with
             | (d, _) :: _ => (MAX_TIME_COUNT < d)%N
             | [] => True
             end)
      /\ (match rx u with
          | (d, _) :: _ => (MAX_TIME_COUNT < d)%N
          | [] => True
          end ->
          ch = 0
          /\ polls u' = (polls u + MAX_TIME_COUNT + 1)%N
          /\ map snd (rx u') = map snd (rx u)).
Proof.
  intros timedout [r t p].
  rewrite recchar_timeout_loop_returns by lia.
  unfold recchar_timeout, recchar_timeout_from; cbn [rx tx polls].
  destruct r as [|[d b] r].
  - do 3 eexists. split; [reflexivity|]. split; [reflexivity|].
    split; [tauto|]. intros _. cbn. repeat split. lia.
  - destruct (N.ltb_spec d (MAX_TIME_COUNT + 1 - 0)) as [Hlt|Hge].
    + do 3 eexists. split; [reflexivity|]. split; [tauto|].
      split; [split; [auto|intros [H|H]; [exact H|lia]]|]. lia.
    + do 3 eexists. split; [reflexivity|]. split; [reflexivity|].
      split; [split; [intros _; right; lia|reflexivity]|].
      intros _. cbn. repeat split. lia.
Qed.

(** A time-out loses nothing: a byte that comes during the window after
    the one that timed out is what the next call returns. *)
Theorem recchar_timeout_then_retry :
  forall d b r t p,
    (MAX_TIME_COUNT < d <= 2 * MAX_TIME_COUNT + 1)%N ->
    exists u1,
      recchar_timeout_loop (N.to_nat (MAX_TIME_COUNT + 2)) 0 false
        {| rx := (d, b) :: r; tx := t; polls := p |}
      = Some (0, true, u1)
      /\ recchar_timeout_loop (N.to_nat (MAX_TIME_COUNT + 2)) 0 false u1
         = Some (uint8 b, false,
                 {| rx := r; tx := t; polls := (p + d + 1)%N |}).
Proof.
  intros d b r t p Hd.
  exists {| rx := ((d - (MAX_TIME_COUNT + 1 - 0))%N, b) :: r; tx := t;
            polls := (p + (MAX_TIME_COUNT + 1 - 0))%N |}.
  rewrite !recchar_timeout_loop_returns by lia.
  unfold recchar_timeout, recchar_timeout_from; cbn [rx tx polls].
  destruct (N.ltb_spec d (MAX_TIME_COUNT + 1 - 0)) as [Hlt|Hge]; [lia|].
  split; [reflexivity|].
  destruct (N.ltb_spec (d - (MAX_TIME_COUNT + 1 - 0)) (MAX_TIME_COUNT + 1 - 0));
    [|lia].
  do 3 f_equal. lia.
Qed.

Lemma recchar_timeout_then_retry_witness :
  exists u1,
    recchar_timeout_loop (N.to_nat (MAX_TIME_COUNT + 2)) 0 false
      {| rx := [(8000001%N, 0x1B)]; tx := []; polls := 0 |}
    = Some (0, true, u1)
    /\ recchar_timeout_loop (N.to_nat (MAX_TIME_COUNT + 2)) 0 false u1
       = Some (uint8 0x1B, false,
               {| rx := []; tx := []; polls := (0 + 8000001 + 1)%N |}).
Proof.
  apply (recchar_timeout_then_retry 8000001%N 0x1B [] [] 0%N).
  vm_compute. split; [reflexivity|discriminate].
Defined.

(** [Serial_Available] reports a byte exactly when one has arrived and
    takes nothing off the line: a [recchar] after it returns the byte and
    the line it would have returned without it, one poll later. *)
Theorem Serial_Available_only_looks :
  forall fuel d b r t p,
    (d < N.of_nat fuel)%N ->
    let u := {| rx := (d, b) :: r; tx := t; polls := p |} in
    (fst (Serial_Available u) = true <-> d = 0%N)
    /\ recchar fuel (snd (Serial_Available u))
       = Some (uint8 b,
               {| rx := r; tx := t;
                  polls := (p + (if (d =? 0)%N then 1 else d) + 1)%N |}).
Proof.
  intros fuel d b r t p Hf u. subst u.
  unfold Serial_Available; cbn [fst snd]. split.
  - unfold RXC; cbn [rx]. destruct d; split; intros H; try reflexivity;
      discriminate.
  - destruct d as [|d].
    + unfold poll, RXC; cbn [rx tx polls].
      destruct (recchar_waits_for_the_byte fuel 0 b r t (N.succ p))
        as [Hr _].
      rewrite Hr. destruct (N.ltb_spec 0 (N.of_nat fuel)); [|lia].
      do 3 f_equal. cbn. lia.
    + unfold poll, RXC; cbn [rx tx polls].
      destruct (recchar_waits_for_the_byte fuel (N.pred (N.pos d)) b r t
                  (N.succ p)) as [Hr _].
      rewrite Hr.
      destruct (N.ltb_spec (N.pred (N.pos d)) (N.of_nat fuel)); [|lia].
      do 3 f_equal. cbn [N.eqb]. lia.
Qed.

Lemma Serial_Available_only_looks_witness :
  (fst (Serial_Available {| rx := [(2%N, 0x41)]; tx := []; polls := 0 |})
   = true <-> 2%N = 0%N)
  /\ recchar 3
       (snd (Serial_Available
               {| rx := [(2%N, 0x41)]; tx := []; polls := 0 |}))
     = Some (uint8 0x41,
             {| rx := []; tx := [];
                polls := (0 + (if (2 =? 0)%N then 1 else 2) + 1)%N |}).
Proof.
  apply (Serial_Available_only_looks 3 2%N 0x41 [] [] 0%N).
  vm_compute. reflexivity.
Defined.

(** ** What the inner loop accepts *)

Section FrameFacts.

Variable T : target.

(** A round of the inner loop that finds its byte in time. *)
Lemma collect_take :
  forall f a s i len ch u log rg ctl d b r,
    s <> ST_PROCESS ->
    rx u = (d, b) :: r ->
    (d <= MAX_TIME_COUNT)%N ->
    collect T (S f)
      (Machine (Locals a s i len ch false false) u log rg ctl)
    = collect T f
        (Machine (parse_switch T (Locals a s i len (uint8 b) false false))
           {| rx := r; tx := tx u; polls := (polls u + d + 1)%N |}
           log rg ctl).
Proof.
  intros f a s i len ch u log rg ctl d b r Hs Hrx Hd.
  cbn [collect vars]. unfold collecting at 1.
  cbn [msgParseState isLeave isTimeout].
  destruct (Z.eqb_spec s ST_PROCESS) as [E|_]; [contradiction|].
  cbn [negb andb].
  rewrite (collect_body_byte T _ d b r) by assumption. reflexivity.
Qed.

(** The last round of the inner loop on a line with nothing on it. *)
Lemma collect_starve :
  forall f a s i len ch t p log rg ctl,
    s <> ST_PROCESS ->
    exists m',
      collect T (S f)
        (Machine (Locals a s i len ch false false)
           {| rx := []; tx := t; polls := p |} log rg ctl)
      = Some m'
      /\ isTimeout (vars m') = true.
Proof.
  intros f a s i len ch t p log rg ctl Hs.
  cbn [collect vars]. unfold collecting at 1.
  cbn [msgParseState isLeave isTimeout].
  destruct (Z.eqb_spec s ST_PROCESS) as [E|_]; [contradiction|].
  cbn [negb andb].
  set (m := Machine _ _ _ _ _).
  destruct (collect_body_outcome T m)
    as [d b r Hrx _ _ _ _ _|_ _ Ht _]; [discriminate|].
  exists (collect_body T m).
  split; [apply collect_done, collecting_timeout, Ht|exact Ht].
Qed.

Lemma length_bytes_zero :
  forall hi lo,
    (uint8 hi =? 0) && (uint8 lo =? 0) = true
    <-> 256 * uint8 hi + uint8 lo = 0.
Proof.
  intros hi lo. pose proof (uint8_range hi). pose proof (uint8_range lo).
  rewrite andb_true_iff, !Z.eqb_eq. lia.
Qed.

(** From the state after the start marker: the loop ends in the process
    state, without time-out, exactly when two zero bytes and one more
    byte follow. *)
Lemma collect_after_marker :
  forall f a i len ch u log rg ctl,
    in_time (rx u) ->
    (length (rx u) < f)%nat ->
    exists m',
      collect T f
        (Machine (Locals a ST_MSG_SIZE_1 i len ch false false) u log rg ctl)
      = Some m'
      /\ match rx u with
         | (_, hi) :: (_, lo) :: _ :: rest =>
             if (uint8 hi =? 0) && (uint8 lo =? 0)
             then msgParseState (vars m') = ST_PROCESS
                  /\ isTimeout (vars m') = false
                  /\ rx (serial m') = rest
             else isTimeout (vars m') = true
         | _ => isTimeout (vars m') = true
         end.
Proof.
  intros f a i len ch [rxl t p] log rg ctl Hin Hf. cbn [rx] in *.
  destruct rxl as [|[d1 hi] rxl].
  { destruct f as [|f]; [cbn in Hf; lia|].
    apply collect_starve. discriminate. }
  apply Forall_cons_iff in Hin as [H1 Hin]. cbn [fst] in H1.
  destruct f as [|f]; [cbn in Hf; lia|].
  rewrite (collect_take f a ST_MSG_SIZE_1 i len ch _ log rg ctl d1 hi rxl)
    by (try discriminate; try reflexivity; assumption).
  rewrite parse_switch_size_1 by reflexivity.
  norm_locals.
  destruct rxl as [|[d2 lo] rxl].
  { destruct f as [|f]; [cbn in Hf; lia|].
    apply collect_starve. discriminate. }
  apply Forall_cons_iff in Hin as [H2 Hin]. cbn [fst] in H2.
  destruct f as [|f]; [cbn in Hf; lia|].
  rewrite (collect_take f a ST_MSG_SIZE_2 i _ _ _ log rg ctl d2 lo rxl)
    by (try discriminate; try reflexivity; assumption).
  rewrite parse_switch_size_2 by reflexivity.
  norm_locals.
  rewrite msgLength_of_bytes by apply uint8_range.
  destruct rxl as [|[d3 x] rest].
  { destruct f as [|f]; [cbn in Hf; lia|].
    apply collect_starve. discriminate. }
  apply Forall_cons_iff in Hin as [H3 Hin]. cbn [fst] in H3.
  destruct ((uint8 hi =? 0) && (uint8 lo =? 0)) eqn:Hz.
  - apply length_bytes_zero in Hz. rewrite Hz.
    destruct f as [|f]; [cbn in Hf; lia|].
    rewrite (collect_take f a ST_GET_DATA 0 0 _ _ log rg ctl d3 x rest)
      by (try discriminate; try reflexivity; assumption).
    rewrite parse_switch_data by reflexivity.
    norm_locals. cbn [Z.eqb].
    eexists. split; [apply collect_done; reflexivity|].
    repeat split.
  - assert (Hne : 256 * uint8 hi + uint8 lo <> 0).
    { intros E. apply length_bytes_zero in E. congruence. }
    match goal with
    | |- exists m', collect T f ?m = Some m' /\ _ =>
        destruct (collect_data_stuck T f m) as (m' & Hrun & _ & Ht);
          try reflexivity
    end.
    + cbn. auto.
    + cbn in *. lia.
    + exists m'. split; assumption.
Qed.

(** From the start state, on a line whose bytes all come in time: the
    loop ends in the process state and without time-out exactly on what
    [frame_split] accepts, with the line behind the frame left over; on
    everything else it ends by time-out. *)
Lemma collect_frame_split :
  forall l f a i len ch t p log rg ctl,
    marker_ok T ->
    in_time l ->
    (length l < f)%nat ->
    exists m',
      collect T f
        (Machine (Locals a ST_START i len ch false false)
           {| rx := l; tx := t; polls := p |} log rg ctl)
      = Some m'
      /\ match frame_split T l with
         | Some rest =>
             msgParseState (vars m') = ST_PROCESS
             /\ isTimeout (vars m') = false
             /\ rx (serial m') = rest
         | None => isTimeout (vars m') = true
         end.
Proof.
  induction l as [|[d b] r IH]; intros f a i len ch t p log rg ctl Hm Hin Hf.
  { destruct f as [|f]; [cbn in Hf; lia|].
    apply collect_starve. discriminate. }
  apply Forall_cons_iff in Hin as [Hd Hin]. cbn [fst] in Hd.
  destruct f as [|f]; [cbn in Hf; lia|]. cbn [length] in Hf.
  rewrite (collect_take f a ST_START i len ch _ log rg ctl d b r)
    by (try discriminate; try reflexivity; assumption).
  rewrite parse_switch_start by reflexivity.
  norm_locals. cbn [frame_split].
  destruct (uint8 b =? MESSAGE_START T).
  - norm_locals.
    destruct (collect_after_marker f a i len (uint8 b)
                {| rx := r; tx := t; polls := (p + d + 1)%N |} log rg ctl)
      as (m' & Hrun & Hres); [exact Hin|cbn; lia|].
    exists m'. split; [exact Hrun|]. cbn [rx] in Hres.
    destruct r as [|[d1 hi] [|[d2 lo] [|[d3 x] rest]]]; try exact Hres.
    destruct ((uint8 hi =? 0) && (uint8 lo =? 0)); exact Hres.
  - apply IH; try assumption. lia.
Qed.

(** The inner loop changes nothing but the parser's variables, [c], the
    time-out flag and the receive side of the line, whatever the fuel. *)
Lemma collect_same :
  forall fuel m m', collect T fuel m = Some m' -> same_outside m m'.
Proof.
  induction fuel as [|f IH]; intros m m' H; cbn [collect] in H;
    destruct (collecting (vars m)); try discriminate.
  - injection H as <-. apply same_outside_refl.
  - eapply same_outside_trans; [apply collect_body_same|apply IH, H].
  - injection H as <-. apply same_outside_refl.
Qed.

Lemma frame_split_suffix :
  forall l rest,
    frame_split T l = Some rest ->
    exists pre, l = pre ++ rest /\ (4 <= length pre)%nat.
Proof.
  induction l as [|[d b] r IH]; intros rest H; cbn [frame_split] in H;
    [discriminate|].
  destruct (uint8 b =? MESSAGE_START T).
  - destruct r as [|[d1 hi] [|[d2 lo] [|x r]]]; try discriminate.
    destruct ((uint8 hi =? 0) && (uint8 lo =? 0)); [|discriminate].
    injection H as <-.
    exists [(d, b); (d1, hi); (d2, lo); x]. split; [reflexivity|cbn; lia].
  - destruct (IH rest H) as (pre & -> & Hlen).
    exists ((d, b) :: pre). split; [reflexivity|cbn; lia].
Qed.

Lemma count_frames_stable :
  forall n1 n2 l,
    (length l <= n1)%nat -> (length l <= n2)%nat ->
    count_frames n1 T l = count_frames n2 T l.
Proof.
  induction n1 as [|n1 IH]; intros n2 l H1 H2.
  - destruct l; [|cbn in H1; lia]. destruct n2; reflexivity.
  - destruct n2 as [|n2].
    + destruct l; [reflexivity|cbn in H2; lia].
    + cbn [count_frames]. destruct (frame_split T l) as [rest|] eqn:E;
        [|reflexivity].
      destruct (frame_split_suffix l rest E) as (pre & -> & Hlen).
      rewrite length_app in H1, H2. f_equal. apply IH; lia.
Qed.

Lemma frames_step :
  forall l rest,
    frame_split T l = Some rest -> frames T l = S (frames T rest).
Proof.
  intros l rest E. unfold frames.
  destruct (frame_split_suffix l rest E) as (pre & Hl & Hlen).
  assert (Hlong : (length rest + 4 <= length l)%nat)
    by (rewrite Hl, length_app; lia).
  destruct (length l) as [|n] eqn:En; [lia|].
  cbn [count_frames]. rewrite E. f_equal.
  apply count_frames_stable; lia.
Qed.

Lemma frames_none :
  forall l, frame_split T l = None -> frames T l = 0%nat.
Proof.
  intros l E. unfold frames. destruct (length l); [reflexivity|].
  cbn [count_frames]. rewrite E. reflexivity.
Qed.

Lemma length_blocks :
  forall k a,
    length (flat_map (page_block T) (cursors T k a))
    = (k * (5 + Z.to_nat (SPM_PAGESIZE T / 2)))%nat.
Proof.
  induction k as [|k IH]; intros a; [reflexivity|].
  cbn [cursors flat_map]. rewrite length_app, IH.
  unfold page_block. rewrite !length_app, length_fills. cbn [length]. lia.
Qed.

(** One round on a line whose bytes come in time. *)
Lemma iteration_frame :
  forall fuel m,
    page_ok T -> marker_ok T ->
    in_time (rx (serial m)) ->
    stopped m = false ->
    (length (rx (serial m)) < fuel)%nat ->
    exists m',
      iteration T fuel m = Some m'
      /\ spm m' = spm m ++ page_block T (address (vars m))
      /\ address (vars m') = next_address T (address (vars m))
      /\ isLeave (vars m') = false
      /\ match frame_split T (rx (serial m)) with
         | Some rest =>
             isTimeout (vars m') = false /\ rx (serial m') = rest
         | None => isTimeout (vars m') = true
         end.
Proof.
  intros fuel [[a s i len ch lv tm] [l t p] log rg ctl] Hpage Hmark Hin
    Hstop Hf.
  unfold stopped in Hstop. cbn in Hstop, Hin, Hf.
  apply orb_false_elim in Hstop as [-> ->].
  unfold iteration. cbv zeta. unfold with_vars.
  cbn [vars serial spm regs control]. norm_locals.
  destruct (collect_frame_split l fuel a i len ch t p log rg ctl Hmark Hin Hf)
    as (mc & Hrun & Hres).
  rewrite Hrun.
  destruct (collect_same _ _ _ Hrun) as (Ha & Hl & _ & Hs & _ & _).
  cbn in Ha, Hl, Hs.
  rewrite (page_operation_runs T mc Hpage).
  eexists. split; [reflexivity|]. cbn. rewrite Hs, Ha, Hl.
  repeat split.
  destruct (frame_split T l); [destruct Hres as (_ & Ht & Hrx); split|];
    assumption.
Qed.

(** The outer loop on such a line: one page block for each frame
    [frame_split] finds, and one for the time-out that ends the loop. *)
Lemma main_loop_frames :
  forall fuel m,
    page_ok T -> marker_ok T ->
    in_time (rx (serial m)) ->
    stopped m = false ->
    (S (length (rx (serial m))) < fuel)%nat ->
    exists m',
      main_loop T fuel m = Some m'
      /\ isTimeout (vars m') = true
      /\ spm m'
         = spm m
           ++ flat_map (page_block T)
                (cursors T (S (frames T (rx (serial m))))
                   (address (vars m))).
Proof.
  induction fuel as [|f IH]; intros m Hpage Hmark Hin Hstop Hf; [lia|].
  cbn [main_loop]. pose proof Hstop as Hstop'. unfold stopped in Hstop'.
  rewrite <- negb_orb, Hstop'. cbn [negb].
  destruct (iteration_frame f m Hpage Hmark Hin Hstop ltac:(lia))
    as (m1 & Hit & Hs & Ha & Hl & Hres).
  rewrite Hit.
  destruct (frame_split T (rx (serial m))) as [rest|] eqn:E.
  - destruct Hres as (Ht & Hrx).
    destruct (frame_split_suffix _ _ E) as (pre & Hpre & Hlen).
    assert (Hshort : (length rest + 4 <= length (rx (serial m)))%nat)
      by (rewrite Hpre, length_app; lia).
    destruct (IH m1 Hpage Hmark) as (m' & Hrun & Ht' & Hs').
    { rewrite Hrx. unfold in_time in *. rewrite Hpre in Hin.
      apply Forall_app in Hin. apply Hin. }
    { unfold stopped. rewrite Hl, Ht. reflexivity. }
    { rewrite Hrx. lia. }
    exists m'. split; [exact Hrun|]. split; [exact Ht'|].
    rewrite Hs', Hs, Ha, Hrx, (frames_step _ _ E), <- app_assoc.
    reflexivity.
  - exists m1. split.
    + apply main_loop_stopped. unfold stopped. rewrite Hres.
      apply orb_true_r.
    + split; [exact Hres|]. rewrite Hs, (frames_none _ E).
      cbn. rewrite app_nil_r. reflexivity.
Qed.

End FrameFacts.

(** On a line whose bytes all come in time, the inner loop, entered in
    its start state, ends in the process state and without time-out
    exactly when the line holds, after any bytes that are not the start
    marker, the marker, two zero bytes and one more byte; the line behind
    that byte is left over.  On every other line it ends by time-out.  It
    touches neither the flash nor the transmitter nor [address]. *)
Theorem inner_loop_accepts_exactly :
  forall T fuel m,
    marker_ok T ->
    in_time (rx (serial m)) ->
    msgParseState (vars m) = ST_START ->
    isLeave (vars m) = false ->
    isTimeout (vars m) = false ->
    (length (rx (serial m)) < fuel)%nat ->
    exists m',
      collect T fuel m = Some m'
      /\ spm m' = spm m
      /\ tx (serial m') = tx (serial m)
      /\ address (vars m') = address (vars m)
      /\ match frame_split T (rx (serial m)) with
         | Some rest =>
             msgParseState (vars m') = ST_PROCESS
             /\ isTimeout (vars m') = false
             /\ rx (serial m') = rest
         | None => isTimeout (vars m') = true
         end.
Proof.
  intros T fuel [[a s i len ch lv tm] [l t p] log rg ctl] Hmark Hin Hs Hl Ht
    Hf.
  cbn in Hin, Hs, Hl, Ht, Hf. subst s lv tm.
  destruct (collect_frame_split T l fuel a i len ch t p log rg ctl
              Hmark Hin Hf) as (m' & Hrun & Hres).
  destruct (collect_same T _ _ _ Hrun) as (Ha & _ & Htx & Hspm & _ & _).
  exists m'. repeat split; assumption.
Qed.

Lemma in_time_line : forall bs, in_time (rx (line bs)).
Proof.
  intros bs. unfold in_time, line; cbn [rx]. apply Forall_map.
  apply Forall_forall. intros b _. cbn. vm_compute. discriminate.
Defined.

Lemma inner_loop_accepts_exactly_witness :
  exists m',
    collect pinoccio 8
      (boot pinoccio (line [0x55; 0xAA; 0x1B; 0; 0; 7; 9]) after_watchdog_reset)
    = Some m'
    /\ spm m'
       = spm (boot pinoccio (line [0x55; 0xAA; 0x1B; 0; 0; 7; 9])
                after_watchdog_reset)
    /\ tx (serial m')
       = tx (serial (boot pinoccio (line [0x55; 0xAA; 0x1B; 0; 0; 7; 9])
                       after_watchdog_reset))
    /\ address (vars m')
       = address (vars (boot pinoccio (line [0x55; 0xAA; 0x1B; 0; 0; 7; 9])
                          after_watchdog_reset))
    /\ match
         frame_split pinoccio
           (rx (serial (boot pinoccio (line [0x55; 0xAA; 0x1B; 0; 0; 7; 9])
                          after_watchdog_reset)))
       with
       | Some rest =>
           msgParseState (vars m') = ST_PROCESS
           /\ isTimeout (vars m') = false
           /\ rx (serial m') = rest
       | None => isTimeout (vars m') = true
       end.
Proof.
  apply (inner_loop_accepts_exactly pinoccio 8
           (boot pinoccio (line [0x55; 0xAA; 0x1B; 0; 0; 7; 9])
              after_watchdog_reset)).
  - exact pinoccio_marker_ok.
  - apply in_time_line.
  - reflexivity.
  - reflexivity.
  - reflexivity.
  - cbn. lia.
Defined.

(** On a line whose bytes all come in time, [main] runs one page block
    for each frame the inner loop accepts and one more for the time-out
    that ends its loop, at the successive values of [address]. *)
Theorem main_one_page_per_frame :
  forall T n fuel u r,
    page_ok T -> marker_ok T ->
    in_time (rx u) ->
    (S (length (rx u)) < fuel)%nat ->
    exists m,
      main T (S n) fuel u r = Some m
      /\ spm m
         = flat_map (page_block T)
             (cursors T (S (frames T (rx u))) (midpoint T))
      /\ length (spm m)
         = ((S (frames T (rx u)))
            * (5 + Z.to_nat (SPM_PAGESIZE T / 2)))%nat.
Proof.
  intros T n fuel u r Hpage Hmark Hin Hf.
  destruct (main_loop_frames T fuel (boot T u r) Hpage Hmark Hin eq_refl Hf)
    as (m & Hrun & Ht & Hs).
  exists m. unfold main. cbn [forever]. rewrite Hrun.
  split; [apply forever_stopped; unfold stopped; rewrite Ht;
          apply orb_true_r|].
  change (spm (boot T u r)) with (@nil spm_op) in Hs.
  change (address (vars (boot T u r))) with (midpoint T) in Hs.
  rewrite app_nil_l in Hs. split; [exact Hs|]. rewrite Hs.
  apply length_blocks.
Qed.

Lemma main_one_page_per_frame_witness :
  exists m,
    main pinoccio 1 10 (line [0x1B; 0; 0; 5; 0x1B; 0; 0; 6])
      after_watchdog_reset
    = Some m
    /\ spm m
       = flat_map (page_block pinoccio)
           (cursors pinoccio
              (S (frames pinoccio (rx (line [0x1B; 0; 0; 5; 0x1B; 0; 0; 6]))))
              (midpoint pinoccio))
    /\ length (spm m)
       = ((S (frames pinoccio
                 (rx (line [0x1B; 0; 0; 5; 0x1B; 0; 0; 6]%Z))))
          * (5 + Z.to_nat (SPM_PAGESIZE pinoccio / 2)))%nat.
Proof.
  apply (main_one_page_per_frame pinoccio 0 10
           (line [0x1B; 0; 0; 5; 0x1B; 0; 0; 6]) after_watchdog_reset).
  - exact pinoccio_page_ok.
  - exact pinoccio_marker_ok.
  - apply in_time_line.
  - cbn. lia.
Defined.

(** ** More on the receive state machine *)

(** In the start state bytes other than the start marker are dropped one
    by one: after such bytes the parser is in the start state as before,
    with the rest of the line in front of it. *)
Theorem start_state_skips_noise :
  forall T noise l f a i len ch t p log rg ctl,
    in_time noise ->
    Forall (fun q => uint8 (snd q) <> MESSAGE_START T) noise ->
    exists ch' p',
      collect T (length noise + f)
        (Machine (Locals a ST_START i len ch false false)
           {| rx := noise ++ l; tx := t; polls := p |} log rg ctl)
      = collect T f
          (Machine (Locals a ST_START i len ch' false false)
             {| rx := l; tx := t; polls := p' |} log rg ctl)
      /\ (p' <= p + (MAX_TIME_COUNT + 1) * N.of_nat (length noise))%N.
Proof.
  intros T noise. induction noise as [|[d b] noise IH];
    intros l f a i len ch t p log rg ctl Hin Hno.
  - exists ch, p. split; [reflexivity|lia].
  - apply Forall_cons_iff in Hin as [Hd Hin]. cbn [fst] in Hd.
    apply Forall_cons_iff in Hno as [Hb Hno]. cbn [snd] in Hb.
    cbn [length Nat.add app].
    rewrite (collect_take T _ a ST_START i len ch _ log rg ctl d b
               (noise ++ l))
      by (try discriminate; try reflexivity; assumption).
    rewrite parse_switch_start by reflexivity. norm_locals.
    destruct (Z.eqb_spec (uint8 b) (MESSAGE_START T)) as [E|_];
      [contradiction|].
    destruct (IH l f a i len (uint8 b) t (p + d + 1)%N log rg ctl Hin Hno)
      as (ch' & p' & Hrun & Hp).
    exists ch', p'. split; [exact Hrun|]. cbn [length]. lia.
Qed.

Lemma start_state_skips_noise_witness :
  exists ch' p',
    collect pinoccio (length [(0%N, 0x55); (7%N, 0xAA)] + 5)
      (Machine (Locals 0x20000 ST_START 0 0 0 false false)
         {| rx := [(0%N, 0x55); (7%N, 0xAA)] ++ rx (line [0x1B; 0; 0; 5]);
            tx := []; polls := 0 |} [] after_watchdog_reset None)
    = collect pinoccio 5
        (Machine (Locals 0x20000 ST_START 0 0 ch' false false)
           {| rx := rx (line [0x1B; 0; 0; 5]); tx := []; polls := p' |}
           [] after_watchdog_reset None)
    /\ (p' <= 0 + (MAX_TIME_COUNT + 1)
                 * N.of_nat (length [(0%N, 0x55); (7%N, 0xAA)]))%N.
Proof.
  apply (start_state_skips_noise pinoccio [(0%N, 0x55); (7%N, 0xAA)]
           (rx (line [0x1B; 0; 0; 5])) 5 0x20000 0 0 0 [] 0%N []
           after_watchdog_reset None).
  - repeat constructor; vm_compute; discriminate.
  - repeat constructor; vm_compute; discriminate.
Defined.

(** The two bytes after the start marker are taken as a sixteen-bit
    length, high byte first: after them the parser is in the data state
    with [msgLength] at 256 times the first plus the second, and [ii] at
    zero. *)
Theorem length_is_big_endian :
  forall T m hi lo d1 d2 d3 rest,
    marker_ok T ->
    msgParseState (vars m) = ST_START ->
    isLeave (vars m) = false ->
    isTimeout (vars m) = false ->
    (d1 <= MAX_TIME_COUNT)%N -> (d2 <= MAX_TIME_COUNT)%N ->
    (d3 <= MAX_TIME_COUNT)%N ->
    rx (serial m) = (d1, MESSAGE_START T) :: (d2, hi) :: (d3, lo) :: rest ->
    exists m3,
      (forall f, collect T (S (S (S f))) m = collect T f m3)
      /\ msgParseState (vars m3) = ST_GET_DATA
      /\ msgLength (vars m3) = 256 * uint8 hi + uint8 lo
      /\ 0 <= msgLength (vars m3) < 65536
      /\ ii (vars m3) = 0
      /\ rx (serial m3) = rest.
Proof.
  intros T m hi lo d1 d2 d3 rest Hmark Hs Hl Ht H1 H2 H3 Hrx.
  destruct (collect_header T m hi lo d1 d2 d3 rest Hmark Hs Hl Ht H1 H2 H3 Hrx)
    as (m3 & Hrun & Hs3 & Hi3 & Hlen3 & _ & _ & Hrx3).
  exists m3. repeat split; try assumption;
    rewrite Hlen3; pose proof (uint8_range hi); pose proof (uint8_range lo);
    lia.
Qed.

Lemma length_is_big_endian_witness :
  exists m3,
    (forall f,
        collect pinoccio (S (S (S f)))
          (boot pinoccio (line [0x1B; 1; 2; 9]) after_watchdog_reset)
        = collect pinoccio f m3)
    /\ msgParseState (vars m3) = ST_GET_DATA
    /\ msgLength (vars m3) = 256 * uint8 1 + uint8 2
    /\ 0 <= msgLength (vars m3) < 65536
    /\ ii (vars m3) = 0
    /\ rx (serial m3) = [(0%N, 9)].
Proof.
  apply (length_is_big_endian pinoccio
           (boot pinoccio (line [0x1B; 1; 2; 9]) after_watchdog_reset)
           1 2 0%N 0%N 0%N [(0%N, 9)]).
  - exact pinoccio_marker_ok.
  - reflexivity.
  - reflexivity.
  - reflexivity.
  - vm_compute; discriminate.
  - vm_compute; discriminate.
  - vm_compute; discriminate.
  - reflexivity.
Defined.

Lemma parse_switch_parser_state :
  forall T l,
    parser_state (msgParseState l) ->
    parser_state (msgParseState (parse_switch T l)).
Proof.
  intros T l H. unfold parser_state in *.
  destruct H as [H|[H|[H|[H|H]]]].
  - rewrite parse_switch_start by exact H.
    destruct (c l =? MESSAGE_START T); cbn; auto.
  - rewrite parse_switch_size_1 by exact H. cbn. auto.
  - rewrite parse_switch_size_2 by exact H. cbn. auto 6.
  - rewrite parse_switch_data by exact H.
    destruct (ii l =? msgLength l); cbn; auto 6.
  - unfold parse_switch. rewrite H. cbn. auto 6.
Qed.

(** The inner loop never takes the parser to the states
    [ST_GET_SEQ_NUM], [ST_GET_TOKEN] or [ST_GET_CHECK]: from a state the
    switch has a case for, or from the process state, it ends in one of
    these again, for every line and every amount of fuel. *)
Theorem parser_never_enters_unused_states :
  forall T fuel m m',
    parser_state (msgParseState (vars m)) ->
    collect T fuel m = Some m' ->
    parser_state (msgParseState (vars m'))
    /\ msgParseState (vars m') <> ST_GET_SEQ_NUM
    /\ msgParseState (vars m') <> ST_GET_TOKEN
    /\ msgParseState (vars m') <> ST_GET_CHECK.
Proof.
  intros T fuel m m' Hst Hrun.
  assert (H : parser_state (msgParseState (vars m'))).
  { revert m Hst Hrun. induction fuel as [|f IH]; intros m Hst Hrun;
      cbn [collect] in Hrun; destruct (collecting (vars m));
      try discriminate; try (injection Hrun as <-; exact Hst).
    apply (IH (collect_body T m)); [|exact Hrun].
    unfold collect_body; cbn [vars with_vars].
    apply parse_switch_parser_state.
    destruct (read_c_parser m) as (-> & _ & _). exact Hst. }
  split; [exact H|].
  unfold parser_state in H.
  repeat split; intros E; rewrite E in H;
    destruct H as [H|[H|[H|[H|H]]]]; discriminate.
Qed.

Lemma parser_never_enters_unused_states_witness :
  exists m',
    collect pinoccio 8
      (boot pinoccio (line [0x1B; 1; 0; 1; 0x0E; 1; 0x14])
         after_watchdog_reset)
    = Some m'
    /\ parser_state (msgParseState (vars m'))
    /\ msgParseState (vars m') <> ST_GET_SEQ_NUM
    /\ msgParseState (vars m') <> ST_GET_TOKEN
    /\ msgParseState (vars m') <> ST_GET_CHECK.
Proof.
  eexists. split; [vm_compute; reflexivity|].
  eapply (parser_never_enters_unused_states pinoccio 8
            (boot pinoccio (line [0x1B; 1; 0; 1; 0x0E; 1; 0x14])
               after_watchdog_reset)).
  - left. reflexivity.
  - vm_compute. reflexivity.
Defined.

(** Whatever the line and the parser state, the inner loop leaves the
    flash calls, the transmitter, [address], [isLeave], the registers and
    the control of the processor as they were. *)
Theorem inner_loop_only_reads :
  forall T fuel m m',
    collect T fuel m = Some m' ->
    spm m' = spm m
    /\ tx (serial m') = tx (serial m)
    /\ address (vars m') = address (vars m)
    /\ isLeave (vars m') = isLeave (vars m)
    /\ regs m' = regs m
    /\ control m' = control m
    /\ (length (rx (serial m')) <= length (rx (serial m)))%nat.
Proof.
  intros T fuel m m' Hrun.
  destruct (collect_same T fuel m m' Hrun) as (Ha & Hl & Htx & Hs & Hr & Hc).
  repeat split; try assumption.
  clear Ha Hl Htx Hs Hr Hc.
  revert m Hrun. induction fuel as [|f IH]; intros m Hrun;
    cbn [collect] in Hrun; destruct (collecting (vars m));
    try discriminate; try (injection Hrun as <-; lia).
  specialize (IH _ Hrun).
  destruct (collect_body_outcome T m) as [d b r Hrx _ Hrx' _ _ _|Hlen _ _ _].
  - rewrite Hrx' in IH. rewrite Hrx. cbn [length]. lia.
  - lia.
Qed.

Lemma inner_loop_only_reads_witness :
  exists m',
    collect pinoccio 5
      (boot pinoccio (line [0x1B; 0; 0; 5]) after_watchdog_reset)
    = Some m'
    /\ spm m' = []
    /\ tx (serial m') = []
    /\ address (vars m') = midpoint pinoccio
    /\ isLeave (vars m') = false
    /\ regs m' = startup after_watchdog_reset
    /\ control m' = None
    /\ (length (rx (serial m')) <= 4)%nat.
Proof.
  eexists. split; [vm_compute; reflexivity|].
  apply (inner_loop_only_reads pinoccio 5
           (boot pinoccio (line [0x1B; 0; 0; 5]) after_watchdog_reset)).
  vm_compute. reflexivity.
Defined.

(** ** More on the page block and the address *)

Lemma fill_loop_odd :
  forall T fuel a size log,
    0 <= size < 65536 -> size mod 2 = 1 ->
    fill_loop T fuel a size log = None.
Proof.
  intros T. induction fuel as [|f IH]; intros a size log Hs Hodd;
    [reflexivity|].
  cbn [fill_loop].
  assert (Hnext : 0 <= uint16 (size - 2) < 65536
                  /\ uint16 (size - 2) mod 2 = 1).
  { unfold uint16. split; [apply Z.mod_pos_bound; lia|].
    destruct (Z.eq_dec size 1) as [->|Hne]; [reflexivity|].
    pose proof (Z.div_mod size 2 ltac:(lia)) as Hdm. rewrite Hodd in Hdm.
    rewrite (Z.mod_small (size - 2)) by lia.
    replace (size - 2) with (size + (-1) * 2) by lia.
    rewrite Z.mod_add by lia. exact Hodd. }
  destruct Hnext as [Hr Ho].
  destruct (Z.eqb_spec (uint16 (size - 2)) 0) as [E|_].
  - rewrite E in Ho. discriminate.
  - apply IH; assumption.
Qed.

Lemma fill_loop_zero_size :
  forall T f a log,
    fill_loop T (S f) a 0 log
    = fill_loop T f (address_t T (a + 2)) 65534
        (log ++ [boot_page_fill a 0xcfff]).
Proof. reflexivity. Qed.

Lemma fills_S :
  forall T n a,
    fills T (S n) a = boot_page_fill a 0xcfff :: fills T n (address_t T (a + 2)).
Proof. reflexivity. Qed.

(** The fill loop comes to an end exactly when the sixteen-bit [size] it
    starts with is even: it then makes [size / 2] fills, or 32768 of them
    when [size] is zero, because the body runs before the test.  With an
    odd [size] the count steps over zero and the loop never ends. *)
Theorem fill_loop_ends_iff_even :
  forall T a size log,
    0 <= size < 65536 ->
    ((exists fuel out, fill_loop T fuel a size log = Some out)
     <-> size mod 2 = 0)
    /\ (size mod 2 = 0 ->
        fill_loop T fill_fuel a size log
        = Some (log ++ fills T (Z.to_nat (if size =? 0 then 32768
                                          else size / 2)) a)).
Proof.
  intros T a size log Hs.
  assert (Heven : size mod 2 = 0 ->
          fill_loop T fill_fuel a size log
          = Some (log ++ fills T (Z.to_nat (if size =? 0 then 32768
                                            else size / 2)) a)).
  { intros He. destruct (Z.eqb_spec size 0) as [->|Hne].
    - unfold fill_fuel.
      change (if 0 =? 0 then 32768 else 0 / 2) with 32768.
      replace (Z.to_nat 32768) with (S (S (Z.to_nat 32766))) by lia.
      remember (Z.to_nat 32766) as n eqn:En.
      assert (Hn : Z.of_nat n = 32766) by lia. clear En.
      rewrite fill_loop_zero_size, fills_S.
      replace 65534 with (2 * (Z.of_nat n + 1)) by lia.
      rewrite fill_loop_fills by lia.
      rewrite <- app_assoc. reflexivity.
    - pose proof (Z.div_mod size 2 ltac:(lia)) as Hdm. rewrite He in Hdm.
      assert (Hn : Z.to_nat (size / 2) = S (Z.to_nat (size / 2) - 1)) by lia.
      rewrite Hn.
      replace size with (2 * (Z.of_nat (Z.to_nat (size / 2) - 1) + 1)) at 1
        by lia.
      apply fill_loop_fills; unfold fill_fuel; lia. }
  split; [|exact Heven]. split.
  - intros (fuel & out & Hrun).
    destruct (Z.eq_dec (size mod 2) 0) as [E|E]; [exact E|].
    rewrite fill_loop_odd in Hrun; [discriminate|exact Hs|].
    pose proof (Z.mod_pos_bound size 2 ltac:(lia)). lia.
  - intros He. do 2 eexists. apply Heven, He.
Qed.

Lemma fill_loop_ends_iff_even_witness :
  ((exists fuel out, fill_loop pinoccio fuel 0x20000 256 [] = Some out)
   <-> 256 mod 2 = 0)
  /\ (256 mod 2 = 0 ->
      fill_loop pinoccio fill_fuel 0x20000 256 []
      = Some ([] ++ fills pinoccio (Z.to_nat (if 256 =? 0 then 32768
                                              else 256 / 2)) 0x20000)).
Proof.
  apply (fill_loop_ends_iff_even pinoccio 0x20000 256 []). lia.
Defined.

(** At a good cursor the page block erases the page at [address], loads
    the word 0xcfff for every word of that page, lowest first and no
    other, writes the page and enables the read-while-write section. *)
Theorem page_block_fills_whole_page :
  forall T m,
    page_ok T -> layout_ok T -> cursor_ok T (address (vars m)) ->
    exists m',
      page_operation T m = Some m'
      /\ spm m'
         = spm m
           ++ [boot_page_erase (address (vars m)); boot_spm_busy_wait]
           ++ map (fun i => boot_page_fill
                              (address (vars m) + 2 * Z.of_nat i) 0xcfff)
                (seq 0 (Z.to_nat (SPM_PAGESIZE T / 2)))
           ++ [boot_page_write (address (vars m)); boot_spm_busy_wait;
               boot_rww_enable]
      /\ 2 * Z.of_nat (Z.to_nat (SPM_PAGESIZE T / 2)) = SPM_PAGESIZE T
      /\ serial m' = serial m.
Proof.
  intros T m Hpage Hlay Hok.
  rewrite (page_operation_runs T m Hpage). eexists. split; [reflexivity|].
  pose proof (cursor_ok_below T _ Hpage Hlay Hok) as Hbelow.
  destruct (layout_facts T Hpage Hlay) as (_ & H0 & _ & _ & Hwide).
  destruct Hok as (Hlo & _ & _). destruct Hpage as [[Hp0 Hp1] Heven].
  assert (Hhalf : 2 * Z.of_nat (Z.to_nat (SPM_PAGESIZE T / 2))
                  = SPM_PAGESIZE T).
  { pose proof (Z.div_mod (SPM_PAGESIZE T) 2 ltac:(lia)) as Hdm.
    rewrite Heven in Hdm. lia. }
  cbn [spm serial]. unfold page_block.
  rewrite fills_words by lia. repeat split. exact Hhalf.
Qed.

Lemma page_block_fills_whole_page_witness :
  exists m',
    page_operation pinoccio
      (at_address pinoccio 0x3DF00 (line []) after_watchdog_reset)
    = Some m'
    /\ spm m'
       = []
         ++ [boot_page_erase 0x3DF00; boot_spm_busy_wait]
         ++ map (fun i => boot_page_fill (0x3DF00 + 2 * Z.of_nat i) 0xcfff)
              (seq 0 (Z.to_nat (SPM_PAGESIZE pinoccio / 2)))
         ++ [boot_page_write 0x3DF00; boot_spm_busy_wait; boot_rww_enable]
    /\ 2 * Z.of_nat (Z.to_nat (SPM_PAGESIZE pinoccio / 2))
       = SPM_PAGESIZE pinoccio
    /\ serial m' = line [].
Proof.
  apply (page_block_fills_whole_page pinoccio
           (at_address pinoccio 0x3DF00 (line []) after_watchdog_reset)).
  - exact pinoccio_page_ok.
  - exact pinoccio_layout_ok.
  - exact cursor_ok_3DF00.
Defined.

Section CycleFacts.

Variable T : target.
Hypothesis Hpage : page_ok T.
Hypothesis Hlay : layout_ok T.

Lemma page_count_facts :
  1 <= page_count T
  /\ APP_END T = midpoint T + page_count T * SPM_PAGESIZE T.
Proof.
  destruct (layout_facts T Hpage Hlay) as (Hm & H0 & Hfit & Hal & _).
  destruct Hlay as (_ & _ & Hend & _). destruct Hpage as [[Hp0 _] _].
  unfold page_count.
  assert (Hd : (APP_END T - midpoint T) mod SPM_PAGESIZE T = 0).
  { rewrite Zminus_mod, Hend, Hal. reflexivity. }
  pose proof (Z.div_mod (APP_END T - midpoint T) (SPM_PAGESIZE T)
                ltac:(lia)) as Hdm.
  rewrite Hd in Hdm.
  split; [|lia].
  apply Z.div_le_lower_bound; lia.
Qed.

Lemma cursor_ok_slot :
  forall i,
    0 <= i < page_count T ->
    cursor_ok T (midpoint T + i * SPM_PAGESIZE T).
Proof.
  intros i Hi. destruct page_count_facts as [_ Hend].
  destruct Hpage as [[Hp0 _] _].
  unfold cursor_ok. rewrite Hend.
  destruct (layout_facts T Hpage Hlay) as (_ & _ & _ & Hal & _).
  split; [nia|]. split; [nia|].
  rewrite Z.mod_add by lia. exact Hal.
Qed.

Lemma next_address_slot :
  forall i,
    0 <= i < page_count T ->
    next_address T (midpoint T + i * SPM_PAGESIZE T)
    = midpoint T + ((i + 1) mod page_count T) * SPM_PAGESIZE T.
Proof.
  intros i Hi. destruct page_count_facts as [Hn Hend].
  pose proof Hpage as [[Hp0 _] Heven].
  assert (Hp2 : 2 <= SPM_PAGESIZE T).
  { destruct (Z.eq_dec (SPM_PAGESIZE T) 1) as [E|E]; [|lia].
    rewrite E in Heven. discriminate. }
  rewrite next_address_no_wrap by (try assumption; apply cursor_ok_slot, Hi).
  rewrite Hend.
  destruct (Z.eq_dec (i + 1) (page_count T)) as [E|E].
  - rewrite E, Z.mod_same by lia.
    destruct (Z.gtb_spec (midpoint T + i * SPM_PAGESIZE T
                          + 2 * SPM_PAGESIZE T)
                (midpoint T + page_count T * SPM_PAGESIZE T + 1)); nia.
  - rewrite Z.mod_small by lia.
    destruct (Z.gtb_spec (midpoint T + i * SPM_PAGESIZE T
                          + 2 * SPM_PAGESIZE T)
                (midpoint T + page_count T * SPM_PAGESIZE T + 1)); nia.
Qed.

Lemma cursors_nth_slot :
  forall k i,
    0 <= i < page_count T ->
    nth k (cursors T (S k) (midpoint T + i * SPM_PAGESIZE T)) 0
    = midpoint T + ((i + Z.of_nat k) mod page_count T) * SPM_PAGESIZE T.
Proof.
  destruct page_count_facts as [Hn _].
  induction k as [|k IH]; intros i Hi.
  - cbn [cursors nth]. rewrite Z.add_0_r, Z.mod_small by lia. reflexivity.
  - change (nth (S k) (cursors T (S (S k)) ?a) 0)
      with (nth k (cursors T (S k) (next_address T a)) 0).
    rewrite next_address_slot by exact Hi.
    rewrite IH by (apply Z.mod_pos_bound; lia).
    rewrite Z.add_mod_idemp_l by lia.
    do 2 f_equal. f_equal. lia.
Qed.

End CycleFacts.

(** [address] goes round the pages between the midpoint and the boot
    section: in round [k], counted from zero, it is at page [k] modulo the
    number of those pages, so after that many rounds it is at the
    midpoint again. *)
Theorem address_goes_round_upper_half :
  forall T k,
    page_ok T -> layout_ok T ->
    1 <= page_count T
    /\ APP_END T = midpoint T + page_count T * SPM_PAGESIZE T
    /\ nth k (cursors T (S k) (midpoint T)) 0
       = midpoint T + (Z.of_nat k mod page_count T) * SPM_PAGESIZE T.
Proof.
  intros T k Hpage Hlay.
  destruct (page_count_facts T Hpage Hlay) as [Hn Hend].
  split; [exact Hn|]. split; [exact Hend|].
  pose proof (cursors_nth_slot T Hpage Hlay k 0 ltac:(lia)) as H.
  rewrite Z.mul_0_l, Z.add_0_r, Z.add_0_l in H. exact H.
Qed.

Lemma address_goes_round_upper_half_witness :
  1 <= page_count pinoccio
  /\ APP_END pinoccio
     = midpoint pinoccio + page_count pinoccio * SPM_PAGESIZE pinoccio
  /\ nth 481 (cursors pinoccio (S 481) (midpoint pinoccio)) 0
     = midpoint pinoccio
       + (Z.of_nat 481 mod page_count pinoccio) * SPM_PAGESIZE pinoccio.
Proof.
  apply (address_goes_round_upper_half pinoccio 481).
  - exact pinoccio_page_ok.
  - exact pinoccio_layout_ok.
Defined.

(** ** More on whole runs *)

Lemma page_block_above :
  forall T a,
    page_ok T -> layout_ok T -> cursor_ok T a ->
    Forall (above_midpoint T) (page_block T a).
Proof.
  intros T a Hpage Hlay Hok.
  pose proof (cursor_ok_below T a Hpage Hlay Hok) as Hbelow.
  destruct (layout_facts T Hpage Hlay) as (_ & H0 & _ & _ & Hwide).
  destruct Hok as (Hlo & _ & Hal). destruct Hpage as [[Hp0 Hp1] Heven].
  assert (Hhalf : 2 * Z.of_nat (Z.to_nat (SPM_PAGESIZE T / 2))
                  = SPM_PAGESIZE T).
  { pose proof (Z.div_mod (SPM_PAGESIZE T) 2 ltac:(lia)) as Hdm.
    rewrite Heven in Hdm. lia. }
  unfold page_block. repeat (apply Forall_app; split).
  - repeat constructor; unfold above_midpoint; cbn [first_byte]; rewrite ?Hal; lia.
  - rewrite fills_words by lia. apply Forall_map, Forall_forall.
    intros i _. unfold above_midpoint; cbn [first_byte]. lia.
  - repeat constructor; unfold above_midpoint; cbn [first_byte]; rewrite ?Hal; lia.
Qed.

(** In every run of [main] the lower half of the flash is left alone: no
    erase, fill or write is about a byte below the midpoint. *)
Theorem main_leaves_lower_half_alone :
  forall T n fuel u r,
    page_ok T -> layout_ok T ->
    (S (length (rx u)) < fuel)%nat ->
    exists m,
      main T (S n) fuel u r = Some m
      /\ Forall (above_midpoint T) (spm m).
Proof.
  intros T n fuel u r Hpage Hlay Hf.
  destruct (main_returns T n fuel u r Hpage Hf)
    as (m & k & Hrun & _ & Hs & _).
  exists m. split; [exact Hrun|]. rewrite Hs.
  apply Forall_flat_map.
  eapply Forall_impl;
    [|apply (cursors_ok T k _ Hpage Hlay (cursor_ok_midpoint T Hpage Hlay))].
  intros a Ha. apply page_block_above; assumption.
Qed.

Lemma main_leaves_lower_half_alone_witness :
  exists m,
    main pinoccio 1 6 (line [0x1B; 0; 0; 5]) after_watchdog_reset = Some m
    /\ Forall (above_midpoint pinoccio) (spm m).
Proof.
  apply (main_leaves_lower_half_alone pinoccio 0 6 (line [0x1B; 0; 0; 5])
           after_watchdog_reset).
  - exact pinoccio_page_ok.
  - exact pinoccio_layout_ok.
  - cbn. lia.
Defined.

(** Whatever arrives on the line, and if nothing does, [main] begins by
    erasing and rewriting the page at the midpoint; it makes at least one
    page block and at most one more than there are bytes on the line. *)
Theorem main_always_rewrites_first_page :
  forall T n fuel u r,
    page_ok T ->
    (S (length (rx u)) < fuel)%nat ->
    exists m k rest,
      main T (S n) fuel u r = Some m
      /\ spm m = page_block T (midpoint T) ++ rest
      /\ spm m = flat_map (page_block T) (cursors T k (midpoint T))
      /\ (1 <= k <= S (length (rx u)))%nat.
Proof.
  intros T n fuel u r Hpage Hf.
  destruct (main_returns T n fuel u r Hpage Hf)
    as (m & k & Hrun & _ & Hs & _ & Hk & _).
  destruct k as [|k]; [lia|].
  exists m, (S k), (flat_map (page_block T)
                      (cursors T k (next_address T (midpoint T)))).
  repeat split; try assumption; try lia.
Qed.

Lemma main_always_rewrites_first_page_witness :
  exists m k rest,
    main pinoccio 1 3 {| rx := [(8000001%N, 0x1B)]; tx := []; polls := 0 |}
      after_watchdog_reset
    = Some m
    /\ spm m = page_block pinoccio (midpoint pinoccio) ++ rest
    /\ spm m = flat_map (page_block pinoccio)
                 (cursors pinoccio k (midpoint pinoccio))
    /\ (1 <= k
        <= S (length
                (rx {| rx := [(8000001%N, 0x1B%Z)]; tx := [];
                       polls := 0%N |})))%nat.
Proof.
  apply (main_always_rewrites_first_page pinoccio 0 3
           {| rx := [(8000001%N, 0x1B)]; tx := []; polls := 0 |}
           after_watchdog_reset).
  - exact pinoccio_page_ok.
  - cbn. lia.
Defined.

(** The loops of [main] do not touch the registers: at any point of a run
    they are as start-up left them, with the reset cause in GPIOR0, the
    reset flags cleared, the watchdog off and interrupts enabled. *)
Theorem main_keeps_startup_registers :
  forall T n fuel u r,
    page_ok T ->
    (S (length (rx u)) < fuel)%nat ->
    exists m,
      main T (S n) fuel u r = Some m
      /\ regs m = startup r
      /\ GPIOR0 (regs m) = uint8 (MCUSR r)
      /\ MCUSR (regs m) = 0
      /\ watchdog_running (regs m) = false
      /\ SREG_I (regs m) = true.
Proof.
  intros T n fuel u r Hpage Hf.
  destruct (main_returns T n fuel u r Hpage Hf)
    as (m & k & Hrun & _ & _ & _ & _ & _ & Hr & _).
  exists m. split; [exact Hrun|]. split; [exact Hr|]. rewrite Hr.
  unfold startup.
  destruct (watchdog_off_works (save_reset_cause r)) as (Hw & Hm & _ & Hg).
  unfold watchdog_running. rewrite Hw, Hm, Hg. repeat split.
Qed.

Lemma main_keeps_startup_registers_witness :
  exists m,
    main pinoccio 1 6 (line [0x1B; 0; 0; 5]) after_watchdog_reset = Some m
    /\ regs m = startup after_watchdog_reset
    /\ GPIOR0 (regs m) = uint8 (MCUSR after_watchdog_reset)
    /\ MCUSR (regs m) = 0
    /\ watchdog_running (regs m) = false
    /\ SREG_I (regs m) = true.
Proof.
  apply (main_keeps_startup_registers pinoccio 0 6 (line [0x1B; 0; 0; 5])
           after_watchdog_reset).
  - exact pinoccio_page_ok.
  - cbn. lia.
Defined.

(** Every run of [main] on a line with finitely many bytes ends the same
    way: [isLeave] is never set, the outer loop is left through the
    time-out flag after at most one time-out window of polls for each
    byte and one more, nothing has been sent, control has not been given
    away, and further rounds of the [for(;;)] change nothing. *)
Theorem main_ends_by_timeout_only :
  forall T n fuel u r,
    page_ok T ->
    (S (length (rx u)) < fuel)%nat ->
    exists m,
      main T 1 fuel u r = Some m
      /\ main T (S n) fuel u r = Some m
      /\ isLeave (vars m) = false
      /\ isTimeout (vars m) = true
      /\ (polls (serial m)
          <= polls u + (MAX_TIME_COUNT + 1) * N.of_nat (S (length (rx u))))%N
      /\ tx (serial m) = tx u
      /\ control m = None.
Proof.
  intros T n fuel u r Hpage Hf.
  destruct (main_loop_returns T fuel (boot T u r) Hpage Hf eq_refl)
    as (m & k & Hrun & Ht & Hl & _ & _ & _ & _ & Htx & _ & Hctl & Hb).
  assert (H1 : main T 1 fuel u r = Some m).
  { unfold main. cbn [forever]. rewrite Hrun. reflexivity. }
  exists m. split; [exact H1|].
  split; [apply main_rounds; [exact H1|unfold stopped; rewrite Ht;
                              apply orb_true_r]|].
  repeat split; try assumption.
  unfold poll_budget in Hb. cbn in Hb. lia.
Qed.

Lemma main_ends_by_timeout_only_witness :
  exists m,
    main pinoccio 1 6 (line [0x1B; 0; 0; 5]) after_watchdog_reset = Some m
    /\ main pinoccio (S 3) 6 (line [0x1B; 0; 0; 5]) after_watchdog_reset
       = Some m
    /\ isLeave (vars m) = false
    /\ isTimeout (vars m) = true
    /\ (polls (serial m)
        <= polls (line [0x1B; 0; 0; 5]%Z)
           + (MAX_TIME_COUNT + 1)
             * N.of_nat (S (length (rx (line [0x1B; 0; 0; 5]%Z)))))%N
    /\ tx (serial m) = tx (line [0x1B; 0; 0; 5])
    /\ control m = None.
Proof.
  apply (main_ends_by_timeout_only pinoccio 3 6 (line [0x1B; 0; 0; 5])
           after_watchdog_reset).
  - exact pinoccio_page_ok.
  - cbn. lia.
Defined.
